(** * VirtualChatList: the virtual-scroll window, the height cache and the
      auto-scroll policy of ai-chat-pc

    Shallow embedding of
      - [useMessageHeight.ts]  (the height cache hook),
      - [VirtualChatList/index.tsx]  (window computation, scroll handling,
        auto-scroll),
      - [MessageItem.tsx]  (the ResizeObserver height report),
      - [rafThrottle], [debounce], [throttle] and [estimateTextHeight] of
        the performance utilities
        ([import { rafThrottle } from '@pc/utils/performance']),
      - [useChatStore.ts]  (the message store).

    Conventions of the embedding.

    - A JavaScript [number] is modelled by the type [number] below: an exact
      integer, [NaN], [+Infinity] or [-Infinity].  IEEE-754 double arithmetic
      on integers of magnitude below 2^53 is exact, so on integral pixel
      amounts the model coincides with the engine; fractional pixels and
      rounding are outside of it.  Negative zero is identified with zero
      (every operator used by the component treats the two alike).
    - Loop counters, array lengths and the indices derived from them are
      integers in the source; they are [Z] (or [nat] for a length) here.
    - The [Map<number, number>] of the hook is a [gmap Z number], the
      [Map] of the message store a [gmap] over the conversation ids. *)

From stdpp Require Import gmap list strings.
From Stdlib Require Import ZArith Lia.

Open Scope Z_scope.

(** ** JavaScript numbers *)

Module JsNumber.

Inductive number : Type :=
  | Num (z : Z)
  | NaN
  | PosInfinity
  | NegInfinity.

#[global] Instance number_eq_dec : EqDecision number.
Proof. solve_decision. Defined.

(** [a + b] *)
Definition add (a b : number) : number :=
  match a, b with
  | NaN, _ | _, NaN => NaN
  | PosInfinity, NegInfinity | NegInfinity, PosInfinity => NaN
  | PosInfinity, _ | _, PosInfinity => PosInfinity
  | NegInfinity, _ | _, NegInfinity => NegInfinity
  | Num x, Num y => Num (x + y)
  end.

(** [a < b]; every comparison with [NaN] is false. *)
Definition lt (a b : number) : bool :=
  match a, b with
  | NaN, _ | _, NaN => false
  | _, NegInfinity => false
  | NegInfinity, _ => true
  | PosInfinity, _ => false
  | _, PosInfinity => true
  | Num x, Num y => x <? y
  end.

(** [a > b] *)
Definition gt (a b : number) : bool := lt b a.

(** [a <= b] *)
Definition le (a b : number) : bool :=
  match a, b with
  | NaN, _ | _, NaN => false
  | NegInfinity, _ => true
  | _, PosInfinity => true
  | _, NegInfinity => false
  | PosInfinity, _ => false
  | Num x, Num y => x <=? y
  end.

(** [a === b] on two numbers: [NaN] is not equal to itself. *)
Definition strict_eq (a b : number) : bool :=
  match a, b with
  | Num x, Num y => x =? y
  | PosInfinity, PosInfinity => true
  | NegInfinity, NegInfinity => true
  | _, _ => false
  end.

(** [ToBoolean]: zero and [NaN] are the falsy numbers. *)
Definition ToBoolean (a : number) : bool :=
  match a with
  | Num 0 => false
  | NaN => false
  | _ => true
  end.

End JsNumber.

Export JsNumber.

(** ** useMessageHeight.ts: the height cache *)

Module HeightCache.

(** [heightCache.current.get(index)] is [cache !! index]; a miss is
    JavaScript's [undefined]. *)

(** [x || d] where [x : number | undefined]. *)
Definition or_default (x : option number) (d : number) : number :=
  match x with
  | Some h => if ToBoolean h then h else d
  | None => d
  end.

(** [x !== size] where [x : number | undefined] and [size : number]. *)
Definition strict_neq (x : option number) (size : number) : bool :=
  match x with
  | Some h => negb (strict_eq h size)
  | None => true
  end.

Section Hook.

(** [useMessageHeight(defaultHeight = 100)] *)
Variable defaultHeight : number.

Definition getItemSize (cache : gmap Z number) (index : Z) : number :=
  or_default (cache !! index) defaultHeight.

Definition setItemSize (cache : gmap Z number) (index : Z) (size : number)
  : gmap Z number :=
  let currentHeight := cache !! index in
  if strict_neq currentHeight size then <[index := size]> cache else cache.

Definition resetHeights (cache : gmap Z number) : gmap Z number := ∅.

End Hook.

End HeightCache.

Export HeightCache.

(** ** MessageItem.tsx: the ResizeObserver callback

    [for (const entry of entries) { const height = entry.contentRect.height;
       if (height > 0) onHeightChange(index, height) }]

    [onHeightChange] is a parameter, as in the source; [S] is whatever state
    it acts on. *)

Module MessageItem.

Fixpoint resizeObserverCallback {S : Type}
    (onHeightChange : Z → number → S → S) (index : Z)
    (entries : list number) (s : S) : S :=
  match entries with
  | [] => s
  | height :: rest =>
      let s' := if gt height (Num 0) then onHeightChange index height s else s in
      resizeObserverCallback onHeightChange index rest s'
  end.

End MessageItem.

(** ** index.tsx: the window computation *)

(** [Array.prototype.slice(start, end)] on integer arguments. *)
Definition slice {A : Type} (l : list A) (start end_ : Z) : list A :=
  let len := Z.of_nat (length l) in
  let k := if start <? 0 then Z.max (len + start) 0 else Z.min start len in
  let final := if end_ <? 0 then Z.max (len + end_) 0 else Z.min end_ len in
  take (Z.to_nat (final - k)) (drop (Z.to_nat k) l).

Module Window.

Section Render.

(** What one render of the component closes over. [defaultHeight] is the
    argument of [useMessageHeight] (120 in the component), [BUFFER_SIZE]
    the local constant (3 in the component), [len] is [messages.length],
    [height] the prop, [scrollTop] the React state. *)
Variable defaultHeight : number.
Variable BUFFER_SIZE : Z.
Variable cache : gmap Z number.
Variable len : nat.
Variable height : number.
Variable scrollTop : number.

Local Abbreviation getItemSize := (HeightCache.getItemSize defaultHeight cache).

(** [for (let i = 0; i < messages.length; i++) total += getItemSize(i)];
    [k] counts the iterations that remain.  In the component this
    computation sits in a [useMemo] over [messages.length, getItemSize]: it
    runs in the renders in which the length has changed, on the cache of
    that moment. *)
Fixpoint totalHeight_loop (k : nat) (i : Z) (total : number) : number :=
  match k with
  | O => total
  | S k' => totalHeight_loop k' (i + 1) (add total (getItemSize i))
  end.

Definition totalHeight : number := totalHeight_loop len 0 (Num 0).

Fixpoint getStartIndex_loop (k : nat) (i : Z) (sum : number) : Z :=
  match k with
  | O => Z.max 0 (Z.of_nat len - 1 - BUFFER_SIZE)
  | S k' =>
      let itemHeight := getItemSize i in
      if gt (add sum itemHeight) scrollTop
      then Z.max 0 (i - BUFFER_SIZE)
      else getStartIndex_loop k' (i + 1) (add sum itemHeight)
  end.

Definition getStartIndex : Z := getStartIndex_loop len 0 (Num 0).

Fixpoint getEndIndex_loop (k : nat) (i : Z) (sum : number) : Z :=
  match k with
  | O => Z.of_nat len - 1
  | S k' =>
      let itemHeight := getItemSize i in
      let sum := add sum itemHeight in
      if gt sum (add scrollTop height)
      then Z.min (Z.of_nat len - 1) (i + BUFFER_SIZE)
      else getEndIndex_loop k' (i + 1) sum
  end.

Definition getEndIndex : Z := getEndIndex_loop len 0 (Num 0).

(** [for (let i = 0; i < startIndex; i++) offset += getItemSize(i)] *)
Fixpoint getOffsetY_loop (k : nat) (i : Z) (offset : number) : number :=
  match k with
  | O => offset
  | S k' => getOffsetY_loop k' (i + 1) (add offset (getItemSize i))
  end.

Definition getOffsetY (startIndex : Z) : number :=
  getOffsetY_loop (Z.to_nat startIndex) 0 (Num 0).

End Render.

(** The four values a render computes before building the tree.
    [totalHeight_] is what the [useMemo] of [totalHeight] returns when it
    runs on this cache, as it does in the first render and whenever
    [messages.length] has changed; in the other renders the component keeps
    the value memoised earlier, which [VirtualChatList.totalHeight_memo]
    tracks. *)
Record VisibleWindow : Type := {
  startIndex : Z;
  endIndex : Z;
  offsetY : number;
  totalHeight_ : number
}.

Definition render (defaultHeight : number) (BUFFER_SIZE : Z)
    (cache : gmap Z number) (len : nat) (height scrollTop : number)
  : VisibleWindow :=
  let startIndex := getStartIndex defaultHeight BUFFER_SIZE cache len scrollTop in
  let endIndex := getEndIndex defaultHeight BUFFER_SIZE cache len height scrollTop in
  {| startIndex := startIndex;
     endIndex := endIndex;
     offsetY := getOffsetY defaultHeight cache startIndex;
     totalHeight_ := totalHeight defaultHeight cache len |}.

(** [messages.slice(startIndex, endIndex + 1)] *)
Definition visibleMessages {M : Type} (messages : list M) (w : VisibleWindow)
  : list M :=
  slice messages (startIndex w) (endIndex w + 1).

(** Specification side: the sum of [getItemSize i] over [0 <= i < k], added
    from the left as the loops do. *)
Definition sumHeights (defaultHeight : number) (cache : gmap Z number)
    (k : Z) : number :=
  foldl add (Num 0) (HeightCache.getItemSize defaultHeight cache <$> seqZ 0 k).

End Window.

Export Window.

(** ** The scroll container, as the component sees it

    [containerRef.current] is the scrolling [div].  The component reads
    [scrollTop], [scrollHeight] and [clientHeight] and assigns [scrollTop];
    the three are finite numbers in the DOM. *)

Module DOM.

Record HTMLDivElement : Type := {
  scrollTop : Z;
  scrollHeight : Z;
  clientHeight : Z
}.

(** [el.scrollTop = v]: the browser clamps the assigned value to the
    scrollable range [0 .. scrollHeight - clientHeight]. *)
Definition assign_scrollTop (v : Z) (el : HTMLDivElement) : HTMLDivElement :=
  {| scrollTop := Z.max 0 (Z.min v (scrollHeight el - clientHeight el));
     scrollHeight := scrollHeight el;
     clientHeight := clientHeight el |}.

(** The content of the container is laid out again with height
    [contentHeight]: the scroll height follows (it is never less than the
    client height), and the browser clamps the position to the new range. *)
Definition laid_out (contentHeight : Z) (el : HTMLDivElement) : HTMLDivElement :=
  let height := Z.max contentHeight (clientHeight el) in
  {| scrollTop := Z.max 0 (Z.min (scrollTop el) (height - clientHeight el));
     scrollHeight := height;
     clientHeight := clientHeight el |}.

(** The position changes without the component's doing (wheel, touch,
    scrollbar drag), or is re-read after an assignment. *)
Definition moved_to (v : Z) (el : HTMLDivElement) : HTMLDivElement :=
  {| scrollTop := v;
     scrollHeight := scrollHeight el;
     clientHeight := clientHeight el |}.

End DOM.

(** ** index.tsx: the component as a state machine

    One [State] is one mounted [VirtualChatList]: its React state, its refs,
    the closure variable of [rafThrottle], and the two queues of the host
    (animation-frame callbacks and pending timeouts).  The component is
    mounted throughout, so [containerRef.current] is the container and the
    guards [if (containerRef.current)] pass. *)

Module VirtualChatList.

(** The two callbacks the component hands to [requestAnimationFrame]. *)
Inductive FrameRequestCallback : Type :=
  (** [() => { func.apply(context, args); rafId = null }] of [rafThrottle],
      with [func = (scrollTop) => setScrollTop(scrollTop)] *)
  | throttled (args : number)
  (** [() => { if (containerRef.current)
                 containerRef.current.scrollTop = containerRef.current.scrollHeight }] *)
  | scrollToBottom.

#[global] Instance FrameRequestCallback_eq_dec : EqDecision FrameRequestCallback.
Proof. solve_decision. Defined.

Record State : Type := {
  (** props *)
  messages_length : nat;
  (** [useState] *)
  scrollTop : number;
  isUserScrolling : bool;
  (** [useRef] *)
  userScrollTimeoutRef : option nat;
  heightCache : gmap Z number;
  containerRef : DOM.HTMLDivElement;
  (** [let rafId] of the [rafThrottle] closure behind [handleScrollThrottled] *)
  rafId : option nat;
  (** host: callbacks waiting for the next animation frame, oldest first *)
  frames : list (nat * FrameRequestCallback);
  (** host: handles of the timeouts still pending; the component sets only
      one kind of timeout, the 500 ms settle check of [handleScroll] *)
  timeouts : list nat;
  (** host: next handle handed out by [requestAnimationFrame]/[setTimeout] *)
  next_handle : nat;
  (** [const totalHeight = useMemo(..., [messages.length, getItemSize])]:
      the value computed by the last render in which [messages.length] had
      changed ([getItemSize] never changes); it is the height of the
      placeholder [div] *)
  totalHeight_memo : number
}.

(** The pin state of the feed is the negation of [isUserScrolling]. *)
Inductive PinState : Type := Pinned | Unpinned.

Definition pinState (s : State) : PinState :=
  if isUserScrolling s then Unpinned else Pinned.

(** *** A state monad for the handlers *)

Definition M (A : Type) : Type := State → A * State.

#[global] Instance M_ret : MRet M := λ A (a : A) s, (a, s).
#[global] Instance M_bind : MBind M :=
  λ A B (f : A → M B) (m : M A) s, let '(a, s') := m s in f a s'.

Definition gets {A : Type} (f : State → A) : M A := λ s, (f s, s).
Definition modify (f : State → State) : M unit := λ s, (tt, f s).
Definition exec {A : Type} (m : M A) (s : State) : State := (m s).2.

Definition with_scrollTop (v : number) (s : State) : State :=
  {| messages_length := messages_length s;
     scrollTop := v; isUserScrolling := isUserScrolling s;
     userScrollTimeoutRef := userScrollTimeoutRef s;
     heightCache := heightCache s; containerRef := containerRef s;
     rafId := rafId s; frames := frames s; timeouts := timeouts s;
     next_handle := next_handle s;
     totalHeight_memo := totalHeight_memo s |}.

Definition with_isUserScrolling (b : bool) (s : State) : State :=
  {| messages_length := messages_length s;
     scrollTop := scrollTop s; isUserScrolling := b;
     userScrollTimeoutRef := userScrollTimeoutRef s;
     heightCache := heightCache s; containerRef := containerRef s;
     rafId := rafId s; frames := frames s; timeouts := timeouts s;
     next_handle := next_handle s;
     totalHeight_memo := totalHeight_memo s |}.

Definition with_userScrollTimeoutRef (r : option nat) (s : State) : State :=
  {| messages_length := messages_length s;
     scrollTop := scrollTop s; isUserScrolling := isUserScrolling s;
     userScrollTimeoutRef := r;
     heightCache := heightCache s; containerRef := containerRef s;
     rafId := rafId s; frames := frames s; timeouts := timeouts s;
     next_handle := next_handle s;
     totalHeight_memo := totalHeight_memo s |}.

Definition with_heightCache (c : gmap Z number) (s : State) : State :=
  {| messages_length := messages_length s;
     scrollTop := scrollTop s; isUserScrolling := isUserScrolling s;
     userScrollTimeoutRef := userScrollTimeoutRef s;
     heightCache := c; containerRef := containerRef s;
     rafId := rafId s; frames := frames s; timeouts := timeouts s;
     next_handle := next_handle s;
     totalHeight_memo := totalHeight_memo s |}.

Definition with_containerRef (el : DOM.HTMLDivElement) (s : State) : State :=
  {| messages_length := messages_length s;
     scrollTop := scrollTop s; isUserScrolling := isUserScrolling s;
     userScrollTimeoutRef := userScrollTimeoutRef s;
     heightCache := heightCache s; containerRef := el;
     rafId := rafId s; frames := frames s; timeouts := timeouts s;
     next_handle := next_handle s;
     totalHeight_memo := totalHeight_memo s |}.

Definition with_rafId (r : option nat) (s : State) : State :=
  {| messages_length := messages_length s;
     scrollTop := scrollTop s; isUserScrolling := isUserScrolling s;
     userScrollTimeoutRef := userScrollTimeoutRef s;
     heightCache := heightCache s; containerRef := containerRef s;
     rafId := r; frames := frames s; timeouts := timeouts s;
     next_handle := next_handle s;
     totalHeight_memo := totalHeight_memo s |}.

Definition with_messages_length (n : nat) (s : State) : State :=
  {| messages_length := n;
     scrollTop := scrollTop s; isUserScrolling := isUserScrolling s;
     userScrollTimeoutRef := userScrollTimeoutRef s;
     heightCache := heightCache s; containerRef := containerRef s;
     rafId := rafId s; frames := frames s; timeouts := timeouts s;
     next_handle := next_handle s;
     totalHeight_memo := totalHeight_memo s |}.

Definition with_frames (q : list (nat * FrameRequestCallback)) (s : State)
  : State :=
  {| messages_length := messages_length s;
     scrollTop := scrollTop s; isUserScrolling := isUserScrolling s;
     userScrollTimeoutRef := userScrollTimeoutRef s;
     heightCache := heightCache s; containerRef := containerRef s;
     rafId := rafId s; frames := q; timeouts := timeouts s;
     next_handle := next_handle s;
     totalHeight_memo := totalHeight_memo s |}.

Definition with_timeouts (t : list nat) (s : State) : State :=
  {| messages_length := messages_length s;
     scrollTop := scrollTop s; isUserScrolling := isUserScrolling s;
     userScrollTimeoutRef := userScrollTimeoutRef s;
     heightCache := heightCache s; containerRef := containerRef s;
     rafId := rafId s; frames := frames s; timeouts := t;
     next_handle := next_handle s;
     totalHeight_memo := totalHeight_memo s |}.

Definition with_next_handle (n : nat) (s : State) : State :=
  {| messages_length := messages_length s;
     scrollTop := scrollTop s; isUserScrolling := isUserScrolling s;
     userScrollTimeoutRef := userScrollTimeoutRef s;
     heightCache := heightCache s; containerRef := containerRef s;
     rafId := rafId s; frames := frames s; timeouts := timeouts s;
     next_handle := n;
     totalHeight_memo := totalHeight_memo s |}.

Definition with_totalHeight_memo (v : number) (s : State) : State :=
  {| messages_length := messages_length s;
     scrollTop := scrollTop s; isUserScrolling := isUserScrolling s;
     userScrollTimeoutRef := userScrollTimeoutRef s;
     heightCache := heightCache s; containerRef := containerRef s;
     rafId := rafId s; frames := frames s; timeouts := timeouts s;
     next_handle := next_handle s;
     totalHeight_memo := v |}.

(** *** Host functions *)

Definition fresh_handle : M nat :=
  id ← gets next_handle;
  modify (with_next_handle (S id));;
  mret id.

Definition requestAnimationFrame (callback : FrameRequestCallback) : M nat :=
  id ← fresh_handle;
  q ← gets frames;
  modify (with_frames (q ++ [(id, callback)]));;
  mret id.

(** [setTimeout(() => {...}, 500)] of [handleScroll] *)
Definition setTimeout : M nat :=
  id ← fresh_handle;
  t ← gets timeouts;
  modify (with_timeouts (id :: t));;
  mret id.

Definition clearTimeout (id : nat) : M unit :=
  t ← gets timeouts;
  modify (with_timeouts (filter (λ x, x ≠ id) t)).

(** [useMessageHeight(120)] and [const BUFFER_SIZE = 3] of the component. *)
Definition defaultHeight : number := Num 120.
Definition BUFFER_SIZE : Z := 3.

(** *** React state setters *)

Definition setScrollTop (v : number) : M unit := modify (with_scrollTop v).
Definition setIsUserScrolling (b : bool) : M unit :=
  modify (with_isUserScrolling b).

(** *** The component's callbacks *)

(** [rafThrottle((scrollTop) => { setScrollTop(scrollTop) })] *)
Definition handleScrollThrottled (args : number) : M unit :=
  r ← gets rafId;
  match r with
  | Some _ => mret tt
  | None =>
      id ← requestAnimationFrame (throttled args);
      modify (with_rafId (Some id))
  end.

(** [handleScroll(e)], with [target = e.target] the container.  A timeout
    handle is a positive integer (or an object), hence truthy: the guard
    [if (userScrollTimeoutRef.current)] tests for a handle being there. *)
Definition handleScroll : M unit :=
  target ← gets containerRef;
  handleScrollThrottled (Num (DOM.scrollTop target));;
  setIsUserScrolling true;;
  current ← gets userScrollTimeoutRef;
  match current with
  | Some id => clearTimeout id
  | None => mret tt
  end;;
  id ← setTimeout;
  modify (with_userScrollTimeoutRef (Some id)).

(** The body of the timeout set by [handleScroll]; [target] is read when
    the timeout fires. *)
Definition settleCheck : M unit :=
  target ← gets containerRef;
  let isAtBottom :=
    DOM.scrollHeight target - DOM.scrollTop target - DOM.clientHeight target <? 10 in
  if isAtBottom then setIsUserScrolling false else mret tt.

(** [handleHeightChange] is a [useCallback] over
    [messages.length, isUserScrolling, setItemSize]: an instance of it sees
    the values of the render that created it.  [captured_length] and
    [captured_isUserScrolling] are those values. *)
Definition handleHeightChange (captured_length : nat)
    (captured_isUserScrolling : bool) (index : Z) (height : number) : M unit :=
  c ← gets heightCache;
  modify (with_heightCache (setItemSize c index height));;
  if (index =? Z.of_nat captured_length - 1) && negb captured_isUserScrolling
  then _ ← requestAnimationFrame scrollToBottom; mret tt
  else mret tt.

(** [useEffect(() => {...}, [messages.length, isUserScrolling])] *)
Definition autoScrollEffect : M unit :=
  u ← gets isUserScrolling;
  n ← gets messages_length;
  if negb u && (0 <? Z.of_nat n)
  then _ ← requestAnimationFrame scrollToBottom; mret tt
  else mret tt.

(** Running one queued animation-frame callback. *)
Definition runFrameCallback (callback : FrameRequestCallback) : M unit :=
  match callback with
  | throttled args =>
      setScrollTop args;;
      modify (with_rafId None)
  | scrollToBottom =>
      el ← gets containerRef;
      modify (with_containerRef (DOM.assign_scrollTop (DOM.scrollHeight el) el))
  end.

Fixpoint runFrameCallbacks (q : list (nat * FrameRequestCallback)) : M unit :=
  match q with
  | [] => mret tt
  | (_, callback) :: q' => runFrameCallback callback;; runFrameCallbacks q'
  end.

(** *** Events

    What can happen to a mounted component.  After the handler of an event
    has run React renders again, and the auto-scroll effect runs when one of
    its dependencies [messages.length], [isUserScrolling] has changed. *)

(** Who moved the scroll position: the DOM event does not say. *)
Inductive ScrollCause : Type := UserDriven | ProgrammaticAutoScroll.

Inductive Event : Type :=
  (** a [scroll] event on the container, whose position is now [position] *)
  | scroll (cause : ScrollCause) (position : Z)
  (** the display refreshes: the queued animation-frame callbacks run *)
  | animationFrame
  (** the timeout with this handle expires *)
  | timeout (id : nat)
  (** the parent passes a [messages] array of this length *)
  | setMessages (len : nat)
  (** the ResizeObserver of the [MessageItem] at [index] delivers entries
      with these content heights; its [onHeightChange] is the
      [handleHeightChange] of a render that saw the two captured values *)
  | resize (captured_length : nat) (captured_isUserScrolling : bool)
      (index : Z) (heights : list number).

(** *** The render that follows a change of [messages.length]

    The [useMemo] of [totalHeight] runs again, on the cache as it is then,
    and the placeholder [<div style={{ height: totalHeight }}>] takes the
    new height, which the container lays out.  A total that is not a finite
    non-negative number is not a valid CSS height: the style, and so the
    layout, stay as they were.  (The translated content is taken to lie
    inside the placeholder; height reports and the other state changes do
    not run this memo again, so the placeholder keeps its height until the
    next change of the length.) *)
Definition recomputeTotalHeight : M unit :=
  c ← gets heightCache;
  n ← gets messages_length;
  modify (with_totalHeight_memo (Window.totalHeight defaultHeight c n)).

Definition layout : M unit :=
  total ← gets totalHeight_memo;
  el ← gets containerRef;
  match total with
  | Num z =>
      if 0 <=? z then modify (with_containerRef (DOM.laid_out z el))
      else mret tt
  | _ => mret tt
  end.

Definition handler (e : Event) : M unit :=
  match e with
  | scroll _ position =>
      el ← gets containerRef;
      modify (with_containerRef (DOM.moved_to position el));;
      handleScroll
  | animationFrame =>
      q ← gets frames;
      modify (with_frames []);;
      runFrameCallbacks q
  | timeout id =>
      t ← gets timeouts;
      if bool_decide (id ∈ t)
      then clearTimeout id;; settleCheck
      else mret tt
  | setMessages len =>
      n ← gets messages_length;
      modify (with_messages_length len);;
      if bool_decide (len = n) then mret tt
      else recomputeTotalHeight;; layout
  | resize captured_length captured_isUserScrolling index heights =>
      modify (MessageItem.resizeObserverCallback
                (λ i h, exec (handleHeightChange captured_length
                                captured_isUserScrolling i h))
                index heights)
  end.

Definition step (e : Event) (s : State) : State :=
  let s' := exec (handler e) s in
  if bool_decide (messages_length s' = messages_length s
                  ∧ isUserScrolling s' = isUserScrolling s)
  then s'
  else exec autoScrollEffect s'.

Definition run (es : list Event) (s : State) : State :=
  foldl (λ s e, step e s) s es.

(** The component right after mounting: initial hook values, the layout of
    the first render, then its effect. *)
Definition mount (len : nat) (container : DOM.HTMLDivElement) : State :=
  exec (layout;; autoScrollEffect)
    {| messages_length := len;
       scrollTop := Num 0; isUserScrolling := false;
       userScrollTimeoutRef := None;
       heightCache := ∅; containerRef := container;
       rafId := None; frames := []; timeouts := [];
       next_handle := 1;
       totalHeight_memo := Window.totalHeight defaultHeight ∅ len |}.

(** A burst of [scroll] events. *)
Definition scrolls (samples : list (ScrollCause * Z)) : list Event :=
  (λ sample, scroll sample.1 sample.2) <$> samples.


(** *** Concrete feeds

    Ten messages in a viewport of 600 px whose content is 1200 px high.
    [pinned_feed] has run the scroll to the bottom of its mount effect;
    in [unpinned_feed] the user has then scrolled up to offset 100. *)
Definition container : DOM.HTMLDivElement :=
  {| DOM.scrollTop := 0; DOM.scrollHeight := 1200; DOM.clientHeight := 600 |}.

Definition pinned_feed : State := run [animationFrame] (mount 10 container).


(** The same ten messages; the ResizeObservers of the nine items rendered
    at mount (indices 0 to 8) have each reported 48 px, the scroll to the
    bottom of the mount effect has run, and the user has scrolled up to
    offset 500. *)
Definition measured_unpinned_feed : State :=
  run [resize 10 false 0 [Num 48]; resize 10 false 1 [Num 48];
       resize 10 false 2 [Num 48]; resize 10 false 3 [Num 48];
       resize 10 false 4 [Num 48]; resize 10 false 5 [Num 48];
       resize 10 false 6 [Num 48]; resize 10 false 7 [Num 48];
       resize 10 false 8 [Num 48];
       animationFrame; scroll UserDriven 500; animationFrame]
    (mount 10 container).

End VirtualChatList.

(** ** Measured heights, for statements about the window

    The ResizeObserver guard of [MessageItem] lets only positive heights
    into the cache, and the default estimate is a positive constant.  The
    predicate below says as much of the first [len] items: each has a finite
    height of at least [m]. *)

Module WindowHeights.

Definition heights_at_least (m : Z) (defaultHeight : number)
    (cache : gmap Z number) (len : nat) : Prop :=
  ∀ i : Z, 0 ≤ i < Z.of_nat len →
    ∃ z : Z, getItemSize defaultHeight cache i = Num z ∧ m ≤ z.

End WindowHeights.

Export WindowHeights.

(** ** Observations on a component state, for statements about traces *)

Module VirtualChatListViews.
Import VirtualChatList.

(** The queued animation-frame callbacks that will write the [scrollTop]
    state: the ones requested by [handleScrollThrottled]. *)
Definition is_update (f : nat * FrameRequestCallback) : bool :=
  match f.2 with
  | throttled _ => true
  | scrollToBottom => false
  end.

Definition pending_updates (s : State) : list (nat * FrameRequestCallback) :=
  filter (λ f, is_update f = true) (frames s).

(** [target.scrollHeight - target.scrollTop - target.clientHeight < 10]
    on the container of [s]. *)
Definition isAtBottom (s : State) : bool :=
  DOM.scrollHeight (containerRef s) - DOM.scrollTop (containerRef s)
    - DOM.clientHeight (containerRef s) <? 10.

(** The last height of a ResizeObserver delivery that passes the
    [height > 0] guard, if any. *)
Definition last_positive (heights : list number) : option number :=
  last (filter (λ h, gt h (Num 0) = true) heights).

(** The states a mounted component can be in: what [mount] yields, followed
    by any sequence of events. *)
Definition reachable (s : State) : Prop :=
  ∃ (len : nat) (container : DOM.HTMLDivElement) (events : list Event),
    s = run events (mount len container).

End VirtualChatListViews.

(** ** useChatStore.ts: the message store

    [messages] is a [Map] from conversation id to the array of its messages.
    Both actions read [selectedId] from the conversation store, which is not
    part of these sources: it is an argument here, and [K] is its type.
    The declaration of [MessageContent] is not part of these sources either;
    the actions use its fields [type] and [content] and carry the others
    along in a spread, so an item is modelled by these two fields and one
    component [others] for the rest ([no_others] when there is none).
    A JavaScript string is a [string]; the actions only compare and
    concatenate them. *)


Module ChatStore.

Section Store.

Context {K : Type} `{Countable K}.
Variable Others : Type.
Variable no_others : Others.

Record MessageContent : Type := {
  type : string;
  content : string;
  others : Others
}.

Record MessageProps : Type := {
  msg_content : list MessageContent;
  role : string
}.

(** [l[l.length - 1] = x] on a non-empty array *)
Definition set_last {A : Type} (l : list A) (x : A) : list A :=
  <[(length l - 1)%nat := x]> l.

Definition addMessage (selectedId : K) (message : MessageProps)
    (messages : gmap K (list MessageProps)) : gmap K (list MessageProps) :=
  let currentMessages := default [] (messages !! selectedId) in
  let currentMessages :=
    currentMessages ++ [{| msg_content := msg_content message;
                           role := role message |}] in
  <[selectedId := currentMessages]> messages.

(** The message pushed when there is no system message to extend:
    [{ content: [{ type: 'text', content: chunk }], role: 'system' }] *)
Definition fresh_reply (chunk : string) : MessageProps :=
  {| msg_content := [{| type := "text"; content := chunk;
                        others := no_others |}];
     role := "system" |}.

(** The body of the updater of [addChunkMessage], from the copy
    [currentMessages] of the selected conversation to the array that is
    stored back. *)
Definition pushChunk (chunk : string) (currentMessages : list MessageProps)
  : list MessageProps :=
  let lastMessage := last currentMessages in
  match lastMessage with
  | Some lastMessage =>
      if String.eqb (role lastMessage) "system" then
        let lastContent := msg_content lastMessage in
        let lastTextContent := last lastContent in
        let lastContent :=
          match lastTextContent with
          | Some lastTextContent =>
              if String.eqb (type lastTextContent) "text" then
                set_last lastContent
                  {| type := type lastTextContent;
                     content := content lastTextContent ++ chunk;
                     others := others lastTextContent |}
              else lastContent
          | None => lastContent
          end in
        set_last currentMessages
          {| msg_content := lastContent; role := role lastMessage |}
      else currentMessages ++ [fresh_reply chunk]
  | None => currentMessages ++ [fresh_reply chunk]
  end.

Definition addChunkMessage (selectedId : K) (chunk : string)
    (messages : gmap K (list MessageProps)) : gmap K (list MessageProps) :=
  let currentMessages := default [] (messages !! selectedId) in
  let currentMessages := pushChunk chunk currentMessages in
  <[selectedId := currentMessages]> messages.

(** A stream of chunks, in order of arrival, and the text they add up to. *)
Definition addChunkMessages (selectedId : K) (chunks : list string)
    (messages : gmap K (list MessageProps)) : gmap K (list MessageProps) :=
  foldl (λ m chunk, addChunkMessage selectedId chunk m) messages chunks.

Definition joined (chunks : list string) : string :=
  foldr String.append "" chunks.

End Store.

Arguments type {Others} _.
Arguments content {Others} _.
Arguments others {Others} _.
Arguments msg_content {Others} _.
Arguments role {Others} _.

End ChatStore.

(** ** performance.ts: the timing helpers other than [rafThrottle]

    [debounce] and [throttle] return a closure over [func], [wait] and their
    own [let] variables.  A model of such a closure is a record of those
    variables, together with the host's pending timeouts and, to state what
    the wrapper does to [func], the list of the calls made to it so far.
    [Date.now()] and the moment a timeout fires are inputs of the events,
    in milliseconds. *)

Module Debounce.

Section Closure.

Variable Args : Type.

Record State : Type := {
  (** [let timeout: NodeJS.Timeout | null] *)
  timeout : option nat;
  (** host: pending timeouts, each with the [args] its callback closes over *)
  timers : list (nat * Args);
  next_handle : nat;
  (** the arguments of the calls made to [func], oldest first *)
  calls : list Args
}.

Definition init : State :=
  {| timeout := None; timers := []; next_handle := 1; calls := [] |}.

Definition clearTimeout (id : nat) (timers : list (nat * Args))
  : list (nat * Args) :=
  filter (λ t, t.1 ≠ id) timers.

(** The returned function, applied to [args]. *)
Definition call (args : Args) (s : State) : State :=
  let timers :=
    match timeout s with
    | Some id => clearTimeout id (timers s)
    | None => timers s
    end in
  let id := next_handle s in
  {| timeout := Some id;
     timers := timers ++ [(id, args)];
     next_handle := S id;
     calls := calls s |}.

(** The timeout [id] expires:
    [() => { func.apply(context, args); timeout = null }]. *)
Definition fire (id : nat) (s : State) : State :=
  match list_find (λ t, t.1 = id) (timers s) with
  | Some (_, (_, args)) =>
      {| timeout := None;
         timers := clearTimeout id (timers s);
         next_handle := next_handle s;
         calls := calls s ++ [args] |}
  | None => s
  end.

Inductive Event : Type :=
  | Call (args : Args)
  | Fire (id : nat).

Definition step (e : Event) (s : State) : State :=
  match e with
  | Call args => call args s
  | Fire id => fire id s
  end.

Definition run (events : list Event) (s : State) : State :=
  foldl (λ s e, step e s) s events.

(** At most one timeout is pending, and [timeout] holds its handle. *)
Definition one_pending (s : State) : Prop :=
  timers s = []
  ∨ ∃ id args, timers s = [(id, args)] ∧ timeout s = Some id.

End Closure.

Arguments timeout {Args} _.
Arguments timers {Args} _.
Arguments next_handle {Args} _.
Arguments calls {Args} _.
Arguments init {Args}.
Arguments one_pending {Args} _.
Arguments call {Args} _ _.
Arguments fire {Args} _ _.
Arguments Call {Args} _.
Arguments Fire {Args} _.
Arguments step {Args} _ _.
Arguments run {Args} _ _.

End Debounce.

Module Throttle.

Section Closure.

Variable Args : Type.
Variable wait : Z.

Record State : Type := {
  (** [let timeout: NodeJS.Timeout | null] *)
  timeout : option nat;
  (** [let previous = 0] *)
  previous : Z;
  (** host: pending timeouts with the time they are due and the [args]
      their callback closes over *)
  timers : list (nat * (Z * Args));
  next_handle : nat;
  (** the calls made to [func]: the time and the arguments, oldest first *)
  calls : list (Z * Args)
}.

Definition init : State :=
  {| timeout := None; previous := 0; timers := []; next_handle := 1;
     calls := [] |}.

(** The returned function, applied to [args] when [Date.now()] is [now]. *)
Definition call (now : Z) (args : Args) (s : State) : State :=
  let remaining := wait - (now - previous s) in
  if (remaining <=? 0) || (wait <? remaining) then
    {| timeout := None;
       previous := now;
       timers := match timeout s with
                 | Some id => filter (λ t, t.1 ≠ id) (timers s)
                 | None => timers s
                 end;
       next_handle := next_handle s;
       calls := calls s ++ [(now, args)] |}
  else
    match timeout s with
    | None =>
        let id := next_handle s in
        {| timeout := Some id;
           previous := previous s;
           timers := timers s ++ [(id, (now + remaining, args))];
           next_handle := S id;
           calls := calls s |}
    | Some _ => s
    end.

(** The timeout [id] expires when [Date.now()] is [now]:
    [() => { previous = Date.now(); timeout = null; func.apply(context, args) }]. *)
Definition fire (now : Z) (id : nat) (s : State) : State :=
  match list_find (λ t, t.1 = id) (timers s) with
  | Some (_, (_, (_, args))) =>
      {| timeout := None;
         previous := now;
         timers := filter (λ t, t.1 ≠ id) (timers s);
         next_handle := next_handle s;
         calls := calls s ++ [(now, args)] |}
  | None => s
  end.

Inductive Event : Type :=
  | Call (now : Z) (args : Args)
  | Fire (now : Z) (id : nat).

Definition time_of (e : Event) : Z :=
  match e with
  | Call now _ => now
  | Fire now _ => now
  end.

Definition step (e : Event) (s : State) : State :=
  match e with
  | Call now args => call now args s
  | Fire now id => fire now id s
  end.

(** The host's promise about time: the clock does not run backwards from
    [t], and a timeout does not expire before it is due. *)
Definition timely (t : Z) (e : Event) (s : State) : Prop :=
  t ≤ time_of e
  ∧ match e with
    | Fire now id => ∀ due args, (id, (due, args)) ∈ timers s → due ≤ now
    | Call _ _ => True
    end.

(** A sequence of events, each timely in the state it meets. *)
Fixpoint well_timed (t : Z) (events : list Event) (s : State) : Prop :=
  match events with
  | [] => True
  | e :: events' => timely t e s ∧ well_timed (time_of e) events' (step e s)
  end.

Definition run (events : list Event) (s : State) : State :=
  foldl (λ s e, step e s) s events.

(** What holds between two events at time [t]: [previous] is not in the
    future, it is the time of the last call to [func] if there was one, and
    a pending timeout is the one [timeout] names, due [wait] after
    [previous]. *)
Definition consistent (t : Z) (s : State) : Prop :=
  previous s ≤ t
  ∧ (∀ c, last (calls s) = Some c → c.1 = previous s)
  ∧ (timers s = []
     ∨ ∃ id args, timers s = [(id, (previous s + wait, args))]
                  ∧ timeout s = Some id).

(** Consecutive entries of a call log are at least [wait] apart. *)
Fixpoint spaced (log : list (Z * Args)) : Prop :=
  match log with
  | [] => True
  | c1 :: log' =>
      match log' with
      | [] => True
      | c2 :: _ => c1.1 + wait ≤ c2.1
      end ∧ spaced log'
  end.

End Closure.

Arguments timeout {Args} _.
Arguments previous {Args} _.
Arguments timers {Args} _.
Arguments next_handle {Args} _.
Arguments calls {Args} _.
Arguments init {Args}.
Arguments Call {Args} _ _.
Arguments Fire {Args} _ _.
Arguments time_of {Args} _.

End Throttle.

(** [estimateTextHeight(content, baseHeight = 60)].  [content] is the
    sequence of UTF-16 code units of the string, so that [content.length] is
    the length of the list; [baseHeight] is an integer.  The number of
    matches of the global regular expression is counted from the left,
    without overlaps.  [codeBlockCount] is half that number and is
    multiplied by 100: 50 per match. *)

Module EstimateTextHeight.

Definition backtick : N := 96.

Fixpoint count_matches (content : list N) : nat :=
  match content with
  | [] => 0
  | c1 :: rest1 =>
      match rest1 with
      | c2 :: c3 :: rest3 =>
          if (c1 =? backtick)%N && (c2 =? backtick)%N && (c3 =? backtick)%N
          then S (count_matches rest3)
          else count_matches rest1
      | _ => count_matches rest1
      end
  end.

Definition estimateTextHeight (content : list N) (baseHeight : Z) : Z :=
  let height := baseHeight in
  let lines := (Z.of_nat (length content) + 49) / 50 in
  let height := height + lines * 24 in
  let matches := Z.of_nat (count_matches content) in
  let height := if 0 <? matches then height + matches * 50 else height in
  Z.min height 1000.

End EstimateTextHeight.

(** * Properties *)

(** ** JavaScript numbers *)

Section NumberFacts.

Lemma strict_eq_true (a b : number) : strict_eq a b = true → a = b.
Proof.
  destruct a, b; simpl; try discriminate; try reflexivity.
  intros H. apply Z.eqb_eq in H. by subst.
Qed.

Lemma gt_false_of_le_zero (h : number) :
  le h (Num 0) = true ∨ h = NaN → gt h (Num 0) = false.
Proof.
  intros [H | ->]; [| reflexivity].
  destruct h; simpl in *; try discriminate; try reflexivity.
  apply Z.leb_le in H. apply Z.ltb_ge. lia.
Qed.

(** What lies above [s + v] lies above [s], unless [v] is negative. *)
Lemma gt_add_nonneg (x s v : number) :
  lt v (Num 0) = false → gt x (add s v) = true → gt x s = true.
Proof.
  unfold gt. destruct x, s, v; simpl; try discriminate; try reflexivity.
  intros Hv Hx. apply Z.ltb_ge in Hv. apply Z.ltb_lt in Hx.
  apply Z.ltb_lt. lia.
Qed.

End NumberFacts.

(** ** The height cache *)

Section HeightCacheFacts.

Implicit Types (cache : gmap Z number) (index : Z) (size : number).

(** After [setItemSize(index, size)] the map holds [size] at [index],
    whether the setter wrote or found the value already there. *)
Lemma lookup_setItemSize_eq cache index size :
  setItemSize cache index size !! index = Some size.
Proof.
  unfold setItemSize, strict_neq.
  destruct (cache !! index) as [h|] eqn:E.
  - destruct (strict_eq h size) eqn:Heq; simpl.
    + apply strict_eq_true in Heq. by subst.
    + apply lookup_insert_eq.
  - apply lookup_insert_eq.
Qed.

Lemma lookup_setItemSize_ne cache index size j :
  index ≠ j → setItemSize cache index size !! j = cache !! j.
Proof.
  intros Hne. unfold setItemSize.
  destruct (strict_neq _ _); [by apply lookup_insert_ne | done].
Qed.

Lemma getItemSize_setItemSize defaultHeight cache index size :
  getItemSize defaultHeight (setItemSize cache index size) index
  = if ToBoolean size then size else defaultHeight.
Proof. unfold getItemSize. by rewrite lookup_setItemSize_eq. Qed.

End HeightCacheFacts.

(** ** The window computation *)

Section WindowFacts.

Variable defaultHeight : number.
Variable BUFFER_SIZE : Z.
Variable cache : gmap Z number.

Local Abbreviation size_of := (getItemSize defaultHeight cache).
Local Abbreviation prefix := (sumHeights defaultHeight cache).

Lemma sumHeights_0 : prefix 0 = Num 0.
Proof. reflexivity. Qed.

Lemma sumHeights_nonpos (k : Z) : k ≤ 0 → prefix k = Num 0.
Proof. intros H. unfold sumHeights. by rewrite seqZ_nil. Qed.

Lemma sumHeights_succ (i : Z) :
  0 ≤ i → prefix (i + 1) = add (prefix i) (size_of i).
Proof.
  intros Hi. unfold sumHeights.
  rewrite seqZ_app by lia. rewrite fmap_app, foldl_app.
  rewrite (seqZ_cons _ 1) by lia.
  rewrite (seqZ_nil _ (Z.pred 1)) by lia.
  simpl. by rewrite Z.add_0_l.
Qed.

(** The three accumulating loops compute prefix sums. *)
Lemma totalHeight_loop_spec (k : nat) (i : Z) :
  0 ≤ i →
  totalHeight_loop defaultHeight cache k i (prefix i) = prefix (i + Z.of_nat k).
Proof.
  revert i. induction k as [|k IH]; intros i Hi; simpl.
  - f_equal. lia.
  - rewrite <- sumHeights_succ by done. rewrite IH by lia. f_equal. lia.
Qed.

Lemma totalHeight_spec (len : nat) :
  totalHeight defaultHeight cache len = prefix (Z.of_nat len).
Proof.
  unfold totalHeight. rewrite <- sumHeights_0.
  by rewrite totalHeight_loop_spec.
Qed.

Lemma getOffsetY_loop_spec (k : nat) (i : Z) :
  0 ≤ i →
  getOffsetY_loop defaultHeight cache k i (prefix i) = prefix (i + Z.of_nat k).
Proof.
  revert i. induction k as [|k IH]; intros i Hi; simpl.
  - f_equal. lia.
  - rewrite <- sumHeights_succ by done. rewrite IH by lia. f_equal. lia.
Qed.

Lemma getOffsetY_spec (startIndex : Z) :
  getOffsetY defaultHeight cache startIndex = prefix startIndex.
Proof.
  unfold getOffsetY.
  destruct (Z.le_gt_cases startIndex 0) as [H|H].
  - rewrite (Z2Nat.nonpos startIndex) by done. simpl.
    symmetry. by apply sumHeights_nonpos.
  - change (Num 0) with (prefix 0).
    rewrite getOffsetY_loop_spec by done. f_equal. lia.
Qed.

(** The scan of [getStartIndex], from index [i] with [k] items left: either
    it stops at the first index whose prefix sum exceeds [scrollTop], or no
    index does and it falls through. *)
Lemma getStartIndex_loop_spec (len : nat) (scrollTop : number) (k : nat) (i : Z) :
  0 ≤ i → i + Z.of_nat k = Z.of_nat len →
  (∀ j, 0 ≤ j < i → gt (prefix (j + 1)) scrollTop = false) →
  (∃ i', i ≤ i' < Z.of_nat len
         ∧ gt (prefix (i' + 1)) scrollTop = true
         ∧ (∀ j, 0 ≤ j < i' → gt (prefix (j + 1)) scrollTop = false)
         ∧ getStartIndex_loop defaultHeight BUFFER_SIZE cache len scrollTop
             k i (prefix i) = Z.max 0 (i' - BUFFER_SIZE))
  ∨ ((∀ j, 0 ≤ j < Z.of_nat len → gt (prefix (j + 1)) scrollTop = false)
     ∧ getStartIndex_loop defaultHeight BUFFER_SIZE cache len scrollTop
         k i (prefix i) = Z.max 0 (Z.of_nat len - 1 - BUFFER_SIZE)).
Proof.
  revert i. induction k as [|k IH]; intros i Hi Hlen Hbefore; simpl.
  - right. split; [|done]. intros j Hj. apply Hbefore. lia.
  - rewrite <- sumHeights_succ by done.
    destruct (gt (prefix (i + 1)) scrollTop) eqn:Hgt.
    + left. exists i. repeat split; try done; lia.
    + destruct (IH (i + 1)) as [(i' & Hi' & Hex & Hfirst & Heq) | [Hnone Heq]].
      * lia.
      * lia.
      * intros j Hj. destruct (decide (j = i)) as [->|]; [done|].
        apply Hbefore. lia.
      * left. exists i'. repeat split; try done; lia.
      * right. by split.
Qed.

(** Every result of the scan of [getEndIndex] from index [i] is at least
    [min (len - 1) (i + BUFFER_SIZE)]. *)
Lemma getEndIndex_loop_lower (len : nat) (height scrollTop : number)
    (k : nat) (i : Z) (sum : number) :
  0 ≤ BUFFER_SIZE → i + Z.of_nat k = Z.of_nat len →
  Z.min (Z.of_nat len - 1) (i + BUFFER_SIZE)
  ≤ getEndIndex_loop defaultHeight BUFFER_SIZE cache len height scrollTop k i sum.
Proof.
  intros Hb. revert i sum. induction k as [|k IH]; intros i sum Hlen; simpl.
  - lia.
  - destruct (gt _ _); [lia|].
    specialize (IH (i + 1) (add sum (size_of i))). lia.
Qed.

(** Run from the same index and the same running sum, the two scans
    return ordered indices. *)
Lemma start_loop_le_end_loop (len : nat) (height scrollTop : number)
    (k : nat) (i : Z) (sum : number) :
  (0 < len)%nat → 0 ≤ BUFFER_SIZE → lt height (Num 0) = false →
  0 ≤ i → i + Z.of_nat k = Z.of_nat len →
  getStartIndex_loop defaultHeight BUFFER_SIZE cache len scrollTop k i sum
  ≤ getEndIndex_loop defaultHeight BUFFER_SIZE cache len height scrollTop k i sum.
Proof.
  intros Hpos Hb Hv. revert i sum.
  induction k as [|k IH]; intros i sum Hi Hlen; simpl.
  - lia.
  - destruct (gt (add sum (size_of i)) (add scrollTop height)) eqn:Hend.
    + rewrite (gt_add_nonneg _ _ _ Hv Hend). lia.
    + destruct (gt (add sum (size_of i)) scrollTop) eqn:Hstart.
      * pose proof (getEndIndex_loop_lower len height scrollTop k (i + 1)
                      (add sum (size_of i)) Hb ltac:(lia)).
        lia.
      * apply IH; lia.
Qed.

End WindowFacts.

(** ** Claims about the window *)

(** C1, as stated, fails: with default height 120, buffer 3, viewport 600,
    ten unmeasured items and scroll offset 0 the end index is not 7.  The
    scan of [getEndIndex] stops at the first index whose running sum is
    strictly above 600, which is index 5 (sum 720), and adds the buffer. *)
Lemma concrete_scenario_endIndex_not_7 :
  let w := render VirtualChatList.defaultHeight VirtualChatList.BUFFER_SIZE
             ∅ 10 (Num 600) (Num 0) in
  ¬ (startIndex w = 0 ∧ endIndex w = 7 ∧ totalHeight_ w = Num 1200).
Proof. simpl. intros (_ & H & _). vm_compute in H. discriminate. Qed.

(** C1, amended: in that scenario the window computation returns
    [startIndex = 0], [endIndex = 8] and [totalHeight = 1200]. *)
Theorem concrete_scenario_window :
  let w := render VirtualChatList.defaultHeight VirtualChatList.BUFFER_SIZE
             ∅ 10 (Num 600) (Num 0) in
  startIndex w = 0 ∧ endIndex w = 8 ∧ totalHeight_ w = Num 1200.
Proof. repeat split; vm_compute; reflexivity. Qed.

(** C7: for a non-empty item sequence and a scroll offset below the total
    height, [getStartIndex] returns [max 0 (i - BUFFER_SIZE)] where [i] is
    the smallest index at which the running sum of the heights of the items
    [0 .. i] exceeds the offset.  (The offset need not be non-negative.) *)
Theorem getStartIndex_first_exceeding
    (defaultHeight : number) (BUFFER_SIZE : Z) (cache : gmap Z number)
    (len : nat) (scrollTop : number) :
  (0 < len)%nat →
  lt scrollTop (totalHeight defaultHeight cache len) = true →
  ∃ i : Z,
    0 ≤ i < Z.of_nat len
    ∧ gt (sumHeights defaultHeight cache (i + 1)) scrollTop = true
    ∧ (∀ j, 0 ≤ j < i → gt (sumHeights defaultHeight cache (j + 1)) scrollTop = false)
    ∧ getStartIndex defaultHeight BUFFER_SIZE cache len scrollTop
      = Z.max 0 (i - BUFFER_SIZE).
Proof.
  intros Hlen Hs.
  destruct (getStartIndex_loop_spec defaultHeight BUFFER_SIZE cache len
              scrollTop len 0) as [(i & Hi & Hex & Hfirst & Heq) | [Hnone _]].
  - lia.
  - lia.
  - intros j Hj. lia.
  - exists i. repeat split; try done; lia.
  - exfalso. rewrite totalHeight_spec in Hs.
    specialize (Hnone (Z.of_nat len - 1)).
    replace (Z.of_nat len - 1 + 1) with (Z.of_nat len) in Hnone by lia.
    unfold gt in Hnone. rewrite Hnone in Hs; [discriminate | lia].
Qed.

Lemma getStartIndex_first_exceeding_witness :
  ∃ i : Z,
    0 ≤ i < 10
    ∧ gt (sumHeights (Num 120) (<[0 := Num 50]> ∅) (i + 1)) (Num 500) = true
    ∧ (∀ j, 0 ≤ j < i →
         gt (sumHeights (Num 120) (<[0 := Num 50]> ∅) (j + 1)) (Num 500) = false)
    ∧ getStartIndex (Num 120) 3 (<[0 := Num 50]> ∅) 10 (Num 500)
      = Z.max 0 (i - 3).
Proof.
  apply (getStartIndex_first_exceeding (Num 120) 3 (<[0 := Num 50]> ∅) 10 (Num 500)).
  - lia.
  - reflexivity.
Defined.

(** C8: the [offsetY] of a rendered window is the sum of [getItemSize i]
    over the indices [0 <= i < startIndex]. *)
Theorem offsetY_is_prefix_sum
    (defaultHeight : number) (BUFFER_SIZE : Z) (cache : gmap Z number)
    (len : nat) (height scrollTop : number) :
  let w := render defaultHeight BUFFER_SIZE cache len height scrollTop in
  offsetY w = sumHeights defaultHeight cache (startIndex w).
Proof. simpl. apply getOffsetY_spec. Qed.

(** C9, as stated, fails on the empty sequence: the two indices are not
    undefined there, they are the numbers 0 and -1, in the wrong order. *)
Lemma empty_sequence_indices_defined :
  let w := render VirtualChatList.defaultHeight VirtualChatList.BUFFER_SIZE
             ∅ 0 (Num 600) (Num 0) in
  startIndex w = 0 ∧ endIndex w = -1 ∧ ¬ (startIndex w ≤ endIndex w).
Proof. simpl. repeat split. vm_compute. intros H. by apply H. Qed.

(** C9, amended: with a non-negative buffer and a viewport height that is
    not negative, a window over a non-empty sequence has
    [startIndex <= endIndex]; over the empty sequence the indices are 0 and
    -1, no message is rendered and the total height is 0. *)
Theorem window_ordered_or_empty
    {Msg : Type} (messages : list Msg)
    (defaultHeight : number) (BUFFER_SIZE : Z) (cache : gmap Z number)
    (height scrollTop : number) :
  0 ≤ BUFFER_SIZE →
  lt height (Num 0) = false →
  let w := render defaultHeight BUFFER_SIZE cache (length messages)
             height scrollTop in
  match messages with
  | [] => startIndex w = 0 ∧ endIndex w = -1
          ∧ visibleMessages messages w = [] ∧ totalHeight_ w = Num 0
  | _ :: _ => startIndex w ≤ endIndex w
  end.
Proof.
  intros Hb Hv. destruct messages as [|m messages]; simpl.
  - unfold getStartIndex, getEndIndex. simpl.
    split; [lia|]. split; [done|]. split; [|done].
    unfold visibleMessages, slice. by rewrite drop_nil, take_nil.
  - apply start_loop_le_end_loop; simpl; try done; lia.
Qed.

Lemma window_ordered_or_empty_witness :
  startIndex (render (Num 120) 3 (<[1 := Num 40]> ∅) 3 (Num 200) (Num 130))
  ≤ endIndex (render (Num 120) 3 (<[1 := Num 40]> ∅) 3 (Num 200) (Num 130)).
Proof.
  apply (window_ordered_or_empty [tt; tt; tt] (Num 120) 3
           (<[1 := Num 40]> ∅) (Num 200) (Num 130)).
  - lia.
  - reflexivity.
Defined.

(** ** Claims about the height cache *)

(** C10, as stated, fails for [NaN]: the setter stores it, and the lookup
    then returns the default, because [NaN] is falsy like 0. *)
Lemma stored_NaN_not_returned :
  let cache := setItemSize ∅ 0 NaN in
  cache !! 0 = Some NaN
  ∧ getItemSize VirtualChatList.defaultHeight cache 0 = Num 120
  ∧ getItemSize VirtualChatList.defaultHeight cache 0 ≠ NaN.
Proof. repeat split; vm_compute; congruence. Qed.

(** C10, amended: the setter stores 0, [NaN] and negative heights alike;
    after storing 0 or [NaN] the lookup returns the default estimate, after
    storing a negative height (or an infinite one) it returns the stored
    value. *)
Theorem falsy_heights_fall_back_to_default
    (defaultHeight : number) (cache : gmap Z number) (index : Z) :
  (setItemSize cache index (Num 0) !! index = Some (Num 0)
   ∧ getItemSize defaultHeight (setItemSize cache index (Num 0)) index
     = defaultHeight)
  ∧ (setItemSize cache index NaN !! index = Some NaN
     ∧ getItemSize defaultHeight (setItemSize cache index NaN) index
       = defaultHeight)
  ∧ (∀ p : positive,
       getItemSize defaultHeight (setItemSize cache index (Num (Z.neg p))) index
       = Num (Z.neg p))
  ∧ getItemSize defaultHeight (setItemSize cache index PosInfinity) index
    = PosInfinity
  ∧ getItemSize defaultHeight (setItemSize cache index NegInfinity) index
    = NegInfinity.
Proof.
  repeat split; intros;
    rewrite ?lookup_setItemSize_eq, ?getItemSize_setItemSize; reflexivity.
Qed.

(** ** The component *)

Module VirtualChatListFacts.
Import VirtualChatList.

#[local] Arguments gt : simpl never.

(** Unfolds the handlers down to record expressions. *)
Ltac unfold_handlers :=
  unfold step, exec, handler, handleScroll, handleScrollThrottled,
    settleCheck, handleHeightChange, autoScrollEffect, runFrameCallback,
    setScrollTop, setIsUserScrolling, setTimeout, clearTimeout,
    requestAnimationFrame, fresh_handle, recomputeTotalHeight, layout,
    gets, modify;
  unfold mbind, mret, M_bind, M_ret; cbn.

(** What the handler of a [scroll] event leaves behind. *)
Lemma handler_scroll (s : State) (cause : ScrollCause) (position : Z) :
  let throttled_id := next_handle s in
  let timeout_id :=
    match rafId s with Some _ => next_handle s | None => S (next_handle s) end in
  exec (handler (scroll cause position)) s =
  {| messages_length := messages_length s;
     scrollTop := scrollTop s;
     isUserScrolling := true;
     userScrollTimeoutRef := Some timeout_id;
     heightCache := heightCache s;
     containerRef := DOM.moved_to position (containerRef s);
     rafId := match rafId s with Some id => Some id | None => Some throttled_id end;
     frames := match rafId s with
               | Some _ => frames s
               | None => frames s ++ [(throttled_id, throttled (Num position))]
               end;
     timeouts := timeout_id ::
                 match userScrollTimeoutRef s with
                 | Some id => filter (λ x, x ≠ id) (timeouts s)
                 | None => timeouts s
                 end;
     next_handle := S timeout_id;
     totalHeight_memo := totalHeight_memo s |}.
Proof.
  destruct s as [n top u ref cache el [r|] q t next memo]; destruct ref; reflexivity.
Qed.

(** The effect does nothing while the user is scrolling. *)
Lemma autoScrollEffect_unpinned (s : State) :
  isUserScrolling s = true → exec autoScrollEffect s = s.
Proof. destruct s; simpl; intros ->. reflexivity. Qed.

Lemma step_scroll (s : State) (cause : ScrollCause) (position : Z) :
  step (scroll cause position) s = exec (handler (scroll cause position)) s.
Proof.
  unfold step. case_bool_decide; [done|].
  apply autoScrollEffect_unpinned. by rewrite handler_scroll.
Qed.

(** The effect changes neither the pin state nor the container. *)
Lemma autoScrollEffect_frame (s : State) :
  isUserScrolling (exec autoScrollEffect s) = isUserScrolling s
  ∧ containerRef (exec autoScrollEffect s) = containerRef s
  ∧ scrollTop (exec autoScrollEffect s) = scrollTop s
  ∧ heightCache (exec autoScrollEffect s) = heightCache s.
Proof.
  destruct s as [n top u ref cache el r q t next memo]. unfold_handlers.
  destruct (negb u && (0 <? Z.of_nat n)); done.
Qed.

Lemma step_isUserScrolling (e : Event) (s : State) :
  isUserScrolling (step e s) = isUserScrolling (exec (handler e) s).
Proof.
  unfold step. case_bool_decide; [done|]. apply autoScrollEffect_frame.
Qed.

(** The effect in a pinned, non-empty feed queues a scroll to the bottom. *)
Lemma autoScrollEffect_pinned (s : State) :
  isUserScrolling s = false → (0 < messages_length s)%nat →
  exec autoScrollEffect s
  = with_frames (frames s ++ [(next_handle s, scrollToBottom)])
      (with_next_handle (S (next_handle s)) s).
Proof.
  destruct s as [n top u ref cache el r q t next memo]; simpl.
  intros -> Hn. unfold_handlers.
  replace (0 <? Z.of_nat n) with true by (symmetry; apply Z.ltb_lt; lia).
  reflexivity.
Qed.

(** *** Animation frames *)

Lemma runFrameCallbacks_app (q1 q2 : list (nat * FrameRequestCallback)) (s : State) :
  exec (runFrameCallbacks (q1 ++ q2)) s
  = exec (runFrameCallbacks q2) (exec (runFrameCallbacks q1) s).
Proof.
  revert s. induction q1 as [|[id cb] q1 IH]; intros s; [done|].
  simpl. unfold exec in *. unfold mbind, M_bind in *. simpl.
  destruct (runFrameCallback cb s) as [[] s1]. apply IH.
Qed.

(** Frame callbacks touch the [scrollTop] state, [rafId] and the position of
    the container, nothing else. *)
Lemma runFrameCallbacks_frame (q : list (nat * FrameRequestCallback)) (s : State) :
  let s' := exec (runFrameCallbacks q) s in
  messages_length s' = messages_length s
  ∧ isUserScrolling s' = isUserScrolling s
  ∧ heightCache s' = heightCache s
  ∧ frames s' = frames s
  ∧ DOM.scrollHeight (containerRef s') = DOM.scrollHeight (containerRef s)
  ∧ DOM.clientHeight (containerRef s') = DOM.clientHeight (containerRef s).
Proof.
  revert s. induction q as [|[id cb] q IH]; intros s; [done|].
  simpl. unfold exec in *. unfold mbind, M_bind in *. simpl.
  destruct (runFrameCallback cb s) as [[] s1] eqn:E.
  specialize (IH s1). simpl in IH.
  assert (messages_length s1 = messages_length s
          ∧ isUserScrolling s1 = isUserScrolling s
          ∧ heightCache s1 = heightCache s
          ∧ frames s1 = frames s
          ∧ DOM.scrollHeight (containerRef s1) = DOM.scrollHeight (containerRef s)
          ∧ DOM.clientHeight (containerRef s1) = DOM.clientHeight (containerRef s))
    as Hcb.
  { destruct cb; unfold_handlers; inversion E; subst; done. }
  destruct IH as (-> & -> & -> & -> & -> & ->). done.
Qed.

Lemma step_animationFrame (s : State) :
  step animationFrame s
  = exec (runFrameCallbacks (frames s)) (with_frames [] s).
Proof.
  unfold step.
  assert (exec (handler animationFrame) s
          = exec (runFrameCallbacks (frames s)) (with_frames [] s)) as ->.
  { by destruct s. }
  pose proof (runFrameCallbacks_frame (frames s) (with_frames [] s)) as (H1 & H2 & _).
  simpl in *. rewrite bool_decide_eq_true_2; [done|].
  rewrite H1, H2. by destruct s.
Qed.


(** A frame that queues only scrolls to the bottom, then one throttled
    sample, applies that sample. *)
Lemma runFrameCallbacks_applies_throttled
    (q : list (nat * FrameRequestCallback)) (id : nat) (v : number) (s : State) :
  let s' := exec (runFrameCallbacks (q ++ [(id, throttled v)])) s in
  scrollTop s' = v ∧ rafId s' = None ∧ frames s' = frames s.
Proof.
  simpl. rewrite runFrameCallbacks_app.
  pose proof (runFrameCallbacks_frame q s) as (_ & _ & _ & Hf & _).
  simpl in *. set (s1 := exec (runFrameCallbacks q) s) in *.
  destruct s1; simpl in *. unfold_handlers. done.
Qed.

(** A burst of samples that finds a throttled callback already queued
    changes neither the queue nor [rafId]. *)
Lemma run_scrolls_pending (samples : list (ScrollCause * Z)) (s : State) (id : nat) :
  rafId s = Some id →
  rafId (run (scrolls samples) s) = Some id
  ∧ frames (run (scrolls samples) s) = frames s.
Proof.
  revert s. induction samples as [|[cause position] samples IH]; intros s Hr; [done|].
  unfold run in *. simpl.
  specialize (IH (step (scroll cause position) s)).
  rewrite step_scroll, handler_scroll in *. simpl in *.
  rewrite Hr in *. by apply IH.
Qed.

(** *** Claims about scroll handling *)

(** C2: the code breaks the claim at this input.  The feed is pinned and
    has just executed its own scroll to the bottom (the assignment of the
    mount effect moved the container from 0 to 600); the [scroll] event
    this assignment causes goes through [handleScroll] like any other and
    marks the user as scrolling: the feed is unpinned by its own scroll. *)
Lemma programmatic_sample_unpins :
  pinState pinned_feed = Pinned
  ∧ DOM.scrollTop (containerRef pinned_feed) = 600
  ∧ pinState (step (scroll ProgrammaticAutoScroll 600) pinned_feed) = Unpinned.
Proof. repeat split; vm_compute; reflexivity. Qed.

(** C6, as stated, fails.  Two samples, 100 then 250, arrive before the next
    frame; the frame applies 100, the first one, although the container is
    at 250. *)
Lemma throttle_applies_first_sample :
  let s := run [scroll UserDriven 100; scroll UserDriven 250; animationFrame]
             pinned_feed in
  DOM.scrollTop (containerRef s) = 250
  ∧ scrollTop s = Num 100
  ∧ scrollTop s ≠ Num 250.
Proof. repeat split; vm_compute; congruence. Qed.

(** C6, amended: when no sample is pending, a burst of samples before the
    next frame adds exactly one callback to the frame queue, carrying the
    first sample of the burst; the later samples are dropped, and the frame
    applies that first sample and frees the throttle. *)
Theorem raf_throttle_first_sample_wins
    (s : State) (cause : ScrollCause) (position : Z)
    (rest : list (ScrollCause * Z)) :
  rafId s = None →
  let s' := run (scroll cause position :: scrolls rest) s in
  frames s' = frames s ++ [(next_handle s, throttled (Num position))]
  ∧ scrollTop (step animationFrame s') = Num position
  ∧ rafId (step animationFrame s') = None
  ∧ frames (step animationFrame s') = [].
Proof.
  intros Hr s'. subst s'.
  assert (frames (run (scroll cause position :: scrolls rest) s)
          = frames s ++ [(next_handle s, throttled (Num position))]) as Hq.
  { unfold run. simpl. fold (run (scrolls rest) (step (scroll cause position) s)).
    destruct (run_scrolls_pending rest (step (scroll cause position) s)
                (next_handle s)) as [_ ->];
      rewrite step_scroll, handler_scroll; simpl; by rewrite Hr. }
  split; [done|].
  rewrite step_animationFrame, Hq.
  apply runFrameCallbacks_applies_throttled.
Qed.

Lemma raf_throttle_first_sample_wins_witness :
  let s' := run (scroll UserDriven 100
                 :: scrolls [(UserDriven, 250); (UserDriven, 90)]) pinned_feed in
  frames s' = frames pinned_feed
              ++ [(next_handle pinned_feed, throttled (Num 100))]
  ∧ scrollTop (step animationFrame s') = Num 100
  ∧ rafId (step animationFrame s') = None
  ∧ frames (step animationFrame s') = [].
Proof.
  apply (raf_throttle_first_sample_wins pinned_feed UserDriven 100
           [(UserDriven, 250); (UserDriven, 90)]).
  reflexivity.
Defined.

(** *** Claims about height reports and auto-scroll *)

(** C3, as stated, fails: the setter has no validity check.  Setting the
    height -5 at a never-measured index changes what the lookup returns
    there (from the default 120 to -5), and setting 0 over a measured
    height of 80 makes the lookup return the default instead of 80. *)
Lemma setter_accepts_invalid_heights :
  le (Num (-5)) (Num 0) = true
  ∧ getItemSize defaultHeight (setItemSize ∅ 0 (Num (-5))) 0 = Num (-5)
  ∧ getItemSize defaultHeight (setItemSize ∅ 0 (Num (-5))) 0
    ≠ getItemSize defaultHeight ∅ 0
  ∧ getItemSize defaultHeight (setItemSize (<[0 := Num 80]> ∅) 0 (Num 0)) 0
    ≠ getItemSize defaultHeight (<[0 := Num 80]> ∅) 0.
Proof. repeat split; vm_compute; congruence. Qed.

(** C3, amended: the check sits in the item's ResizeObserver callback.  A
    reported height that is [<= 0] or [NaN] never reaches the setter: the
    report leaves the component, and so the cache, as it was.  The setter
    itself stores whatever it is given, after which the lookup returns the
    value if it is truthy and the default otherwise. *)
Theorem invalid_report_is_ignored
    (s : State) (captured_length : nat) (captured_isUserScrolling : bool)
    (index : Z) (h : number) :
  le h (Num 0) = true ∨ h = NaN →
  step (resize captured_length captured_isUserScrolling index [h]) s = s
  ∧ ∀ (d : number) (cache : gmap Z number),
      setItemSize cache index h !! index = Some h
      ∧ getItemSize d (setItemSize cache index h) index
        = if ToBoolean h then h else d.
Proof.
  intros Hh. apply gt_false_of_le_zero in Hh. split.
  - unfold step, exec, handler, modify. simpl. rewrite Hh.
    by rewrite bool_decide_eq_true_2.
  - intros d cache. split.
    + apply lookup_setItemSize_eq.
    + apply getItemSize_setItemSize.
Qed.

Lemma invalid_report_is_ignored_witness :
  step (resize 10 false 9 [Num (-5)]) pinned_feed = pinned_feed
  ∧ ∀ (d : number) (cache : gmap Z number),
      setItemSize cache 9 (Num (-5)) !! 9 = Some (Num (-5))
      ∧ getItemSize d (setItemSize cache 9 (Num (-5))) 9
        = if ToBoolean (Num (-5)) then Num (-5) else d.
Proof.
  apply (invalid_report_is_ignored pinned_feed 10 false 9 (Num (-5))).
  left. reflexivity.
Defined.

(** What the layout of a render does. *)
Lemma exec_layout (s : State) :
  exec layout s
  = match totalHeight_memo s with
    | Num z =>
        if 0 <=? z then with_containerRef (DOM.laid_out z (containerRef s)) s
        else s
    | _ => s
    end.
Proof.
  destruct s as [n top u ref cache el r q t next memo].
  unfold exec, layout, gets, modify, mbind, mret, M_bind, M_ret. simpl.
  destruct memo as [z| | |]; try reflexivity.
  destruct (0 <=? z); reflexivity.
Qed.

(** The handler of [setMessages]: nothing but the length when the length is
    the same, else the memo and the layout follow. *)
Lemma handler_setMessages (s : State) (len : nat) :
  exec (handler (setMessages len)) s
  = if bool_decide (len = messages_length s)
    then with_messages_length len s
    else exec layout
           (with_totalHeight_memo
              (Window.totalHeight defaultHeight (heightCache s) len)
              (with_messages_length len s)).
Proof.
  destruct s as [n top u ref cache el r q t next memo].
  unfold exec, handler, recomputeTotalHeight, gets, modify,
    mbind, mret, M_bind, M_ret.
  simpl. case_bool_decide; reflexivity.
Qed.

(** It touches the length, the memo and the geometry of the container, and
    nothing else; the client height stays. *)
Lemma handler_setMessages_frame (s : State) (len : nat) :
  let s' := exec (handler (setMessages len)) s in
  messages_length s' = len
  ∧ isUserScrolling s' = isUserScrolling s
  ∧ scrollTop s' = scrollTop s
  ∧ heightCache s' = heightCache s
  ∧ rafId s' = rafId s
  ∧ frames s' = frames s
  ∧ timeouts s' = timeouts s
  ∧ userScrollTimeoutRef s' = userScrollTimeoutRef s
  ∧ next_handle s' = next_handle s
  ∧ DOM.clientHeight (containerRef s') = DOM.clientHeight (containerRef s).
Proof.
  cbv zeta. rewrite handler_setMessages. case_bool_decide; [by destruct s|].
  rewrite exec_layout.
  destruct s as [n top u ref cache el r q t next memo]. simpl.
  destruct (Window.totalHeight defaultHeight cache len) as [z| | |];
    try done.
  destruct (0 <=? z); done.
Qed.







(** C5: the code breaks the claim at this input.  Ten messages, of which
    the nine rendered at the top have been measured at 48 px; the total
    height, computed at mount, still stands at 1200, and the user has
    scrolled up to offset 500.  One message is appended and its height
    reported: no scroll is queued, but the total is now computed again, to
    672, the container is laid out with it, and the offset drops from 500
    to 72, the bottom of the new scroll range. *)
Lemma unpinned_append_moves_offset :
  let s := measured_unpinned_feed in
  let s1 := step (setMessages 11) s in
  let s2 := step (resize (messages_length s1) (isUserScrolling s1) 10 [Num 48])
              s1 in
  (pinState s = Unpinned
   ∧ DOM.scrollTop (containerRef s) = 500
   ∧ totalHeight_memo s = Num 1200)
  ∧ (frames s = [] ∧ frames s1 = [] ∧ frames s2 = [])
  ∧ totalHeight_memo s1 = Num 672
  ∧ DOM.scrollHeight (containerRef s1) = 672
  ∧ DOM.scrollTop (containerRef s1) = 72
  ∧ DOM.scrollTop (containerRef s2) = 72.
Proof. repeat split; vm_compute; reflexivity. Qed.

End VirtualChatListFacts.

(** * Further properties of the window *)

Section WindowBounds.

Variable defaultHeight : number.
Variable BUFFER_SIZE : Z.
Variable cache : gmap Z number.

Local Abbreviation item_size := (getItemSize defaultHeight cache).
Local Abbreviation running := (sumHeights defaultHeight cache).

Lemma lt_Num_trans_le (x : number) (a b : Z) :
  a ≤ b → lt x (Num a) = true → lt x (Num b) = true.
Proof.
  destruct x; simpl; try done. intros Hab H.
  apply Z.ltb_lt in H. apply Z.ltb_lt. lia.
Qed.

Lemma lt_asym (x y : number) : lt x y = true → lt y x = false.
Proof.
  destruct x, y; simpl; try done. intros H.
  apply Z.ltb_lt in H. apply Z.ltb_ge. lia.
Qed.

(** Between two indices the running sum grows by at least [m] per item. *)
Lemma running_growth (m : Z) (len : nat) (a : Z) (d : nat) :
  heights_at_least m defaultHeight cache len →
  0 ≤ a → a + Z.of_nat d ≤ Z.of_nat len →
  ∃ za zb : Z,
    running a = Num za ∧ running (a + Z.of_nat d) = Num zb
    ∧ Z.of_nat d * m ≤ zb - za.
Proof.
  intros Hh Ha. 
  assert (∀ k : nat, Z.of_nat k ≤ Z.of_nat len → ∃ z, running (Z.of_nat k) = Num z)
    as Hfin.
  { induction k as [|k IH]; intros Hk.
    - by exists 0.
    - destruct IH as [z Hz]; [lia|].
      destruct (Hh (Z.of_nat k)) as (h & Hsize & _); [lia|].
      exists (z + h).
      replace (Z.of_nat (S k)) with (Z.of_nat k + 1) by lia.
      rewrite sumHeights_succ by lia. by rewrite Hz, Hsize. }
  induction d as [|d IH]; intros Hd.
  - destruct (Hfin (Z.to_nat a)) as [z Hz]; [lia|].
    rewrite Z2Nat.id in Hz by done.
    exists z, z. rewrite Z.add_0_r. repeat split; try done. lia.
  - destruct IH as (za & zb & Hza & Hzb & Hgrow); [lia|].
    destruct (Hh (a + Z.of_nat d)) as (h & Hsize & Hm); [lia|].
    exists za, (zb + h).
    replace (a + Z.of_nat (S d)) with (a + Z.of_nat d + 1) by lia.
    rewrite sumHeights_succ by lia. rewrite Hzb, Hsize.
    repeat split; try done. simpl. lia.
Qed.

Lemma running_between (m : Z) (len : nat) (a b : Z) :
  heights_at_least m defaultHeight cache len →
  0 ≤ a → a ≤ b → b ≤ Z.of_nat len →
  ∃ za zb : Z,
    running a = Num za ∧ running b = Num zb ∧ (b - a) * m ≤ zb - za.
Proof.
  intros Hh Ha Hab Hb.
  destruct (running_growth m len a (Z.to_nat (b - a)) Hh Ha) as (za & zb & H1 & H2 & H3);
    [lia|].
  exists za, zb. rewrite Z2Nat.id in H2, H3 by lia.
  replace (a + (b - a)) with b in H2 by lia. done.
Qed.

(** The scan of [getEndIndex], from index [i] with [k] items left: it stops
    at the first index whose running sum exceeds [scrollTop + height], or no
    index does and it returns the last index. *)
Lemma getEndIndex_loop_spec (len : nat) (height scrollTop : number)
    (k : nat) (i : Z) :
  0 ≤ i → i + Z.of_nat k = Z.of_nat len →
  (∀ j, 0 ≤ j < i → gt (running (j + 1)) (add scrollTop height) = false) →
  (∃ j', i ≤ j' < Z.of_nat len
         ∧ gt (running (j' + 1)) (add scrollTop height) = true
         ∧ (∀ j, 0 ≤ j < j' → gt (running (j + 1)) (add scrollTop height) = false)
         ∧ getEndIndex_loop defaultHeight BUFFER_SIZE cache len height scrollTop
             k i (running i) = Z.min (Z.of_nat len - 1) (j' + BUFFER_SIZE))
  ∨ ((∀ j, 0 ≤ j < Z.of_nat len → gt (running (j + 1)) (add scrollTop height) = false)
     ∧ getEndIndex_loop defaultHeight BUFFER_SIZE cache len height scrollTop
         k i (running i) = Z.of_nat len - 1).
Proof.
  revert i. induction k as [|k IH]; intros i Hi Hlen Hbefore; simpl.
  - right. split; [|done]. intros j Hj. apply Hbefore. lia.
  - rewrite <- sumHeights_succ by done.
    destruct (gt (running (i + 1)) (add scrollTop height)) eqn:Hgt.
    + left. exists i. repeat split; try done; lia.
    + destruct (IH (i + 1)) as [(j' & Hj' & Hex & Hfirst & Heq) | [Hnone Heq]].
      * lia.
      * lia.
      * intros j Hj. destruct (decide (j = i)) as [->|]; [done|].
        apply Hbefore. lia.
      * left. exists j'. repeat split; try done; lia.
      * right. by split.
Qed.

Lemma getStartIndex_cases (len : nat) (scrollTop : number) :
  (∃ i', 0 ≤ i' < Z.of_nat len
         ∧ gt (running (i' + 1)) scrollTop = true
         ∧ (∀ j, 0 ≤ j < i' → gt (running (j + 1)) scrollTop = false)
         ∧ getStartIndex defaultHeight BUFFER_SIZE cache len scrollTop
           = Z.max 0 (i' - BUFFER_SIZE))
  ∨ ((∀ j, 0 ≤ j < Z.of_nat len → gt (running (j + 1)) scrollTop = false)
     ∧ getStartIndex defaultHeight BUFFER_SIZE cache len scrollTop
       = Z.max 0 (Z.of_nat len - 1 - BUFFER_SIZE)).
Proof.
  apply (getStartIndex_loop_spec defaultHeight BUFFER_SIZE cache len scrollTop len 0);
    [lia | lia | intros; lia].
Qed.

Lemma getEndIndex_cases (len : nat) (height scrollTop : number) :
  (∃ j', 0 ≤ j' < Z.of_nat len
         ∧ gt (running (j' + 1)) (add scrollTop height) = true
         ∧ (∀ j, 0 ≤ j < j' → gt (running (j + 1)) (add scrollTop height) = false)
         ∧ getEndIndex defaultHeight BUFFER_SIZE cache len height scrollTop
           = Z.min (Z.of_nat len - 1) (j' + BUFFER_SIZE))
  ∨ ((∀ j, 0 ≤ j < Z.of_nat len → gt (running (j + 1)) (add scrollTop height) = false)
     ∧ getEndIndex defaultHeight BUFFER_SIZE cache len height scrollTop
       = Z.of_nat len - 1).
Proof.
  apply (getEndIndex_loop_spec len height scrollTop len 0); [lia | lia | intros; lia].
Qed.

End WindowBounds.

Section WindowTheorems.

Variable defaultHeight : number.
Variable BUFFER_SIZE : Z.
Variable cache : gmap Z number.

Local Abbreviation running := (sumHeights defaultHeight cache).

Lemma getStartIndex_loop_nonneg (len : nat) (scrollTop : number)
    (k : nat) (i : Z) (sum : number) :
  0 ≤ getStartIndex_loop defaultHeight BUFFER_SIZE cache len scrollTop k i sum.
Proof.
  revert i sum. induction k as [|k IH]; intros i sum; simpl; [lia|].
  destruct (gt _ _); [lia | apply IH].
Qed.

Lemma getEndIndex_loop_upper (len : nat) (height scrollTop : number)
    (k : nat) (i : Z) (sum : number) :
  getEndIndex_loop defaultHeight BUFFER_SIZE cache len height scrollTop k i sum
  ≤ Z.of_nat len - 1.
Proof.
  revert i sum. induction k as [|k IH]; intros i sum; simpl; [lia|].
  destruct (gt _ _); [lia | apply IH].
Qed.

(** X1 (containment).  With a non-negative buffer and finite, non-negative
    heights, every item that intersects the viewport, that is whose bottom
    edge lies below [scrollTop] and whose top edge lies above
    [scrollTop + height], is inside the rendered index range. *)
Theorem visible_items_are_rendered
    (len : nat) (height scrollTop : number) (k : Z) :
  0 ≤ BUFFER_SIZE →
  heights_at_least 0 defaultHeight cache len →
  0 ≤ k < Z.of_nat len →
  gt (running (k + 1)) scrollTop = true →
  lt (running k) (add scrollTop height) = true →
  getStartIndex defaultHeight BUFFER_SIZE cache len scrollTop ≤ k
  ∧ k ≤ getEndIndex defaultHeight BUFFER_SIZE cache len height scrollTop.
Proof.
  intros Hb Hh Hk Hbottom Htop. split.
  - destruct (getStartIndex_cases defaultHeight BUFFER_SIZE cache len scrollTop)
      as [(i' & Hi' & _ & Hfirst & ->) | [Hnone _]].
    + destruct (Z.le_gt_cases i' k) as [Hle|Hgt]; [lia|].
      rewrite Hfirst in Hbottom by lia. discriminate.
    + rewrite Hnone in Hbottom by lia. discriminate.
  - destruct (getEndIndex_cases defaultHeight BUFFER_SIZE cache len height scrollTop)
      as [(j' & Hj' & Hex & _ & ->) | [_ ->]]; [|lia].
    destruct (Z.le_gt_cases k j') as [Hle|Hgt]; [lia|]. exfalso.
    destruct (running_between defaultHeight cache 0 len (j' + 1) k Hh)
      as (za & zb & Hza & Hzb & Hgrow); [lia..|].
    rewrite Hza in Hex. rewrite Hzb in Htop. unfold gt in Hex.
    apply (lt_Num_trans_le _ za zb) in Hex; [|lia].
    apply lt_asym in Hex. congruence.
Qed.


(** X3 (the rendered slice).  For a non-empty message array, a non-negative
    buffer and a viewport height that is not negative, both indices are
    valid array indices in the right order, the rendered slice holds
    [endIndex - startIndex + 1] messages, and its [idx]-th element is the
    message at [startIndex + idx], the [actualIndex] under which it is
    keyed and measured. *)
Theorem visibleMessages_is_index_range
    {Msg : Type} (messages : list Msg) (height scrollTop : number) :
  0 ≤ BUFFER_SIZE →
  lt height (Num 0) = false →
  (0 < length messages)%nat →
  let w := render defaultHeight BUFFER_SIZE cache (length messages)
             height scrollTop in
  (0 ≤ startIndex w ∧ startIndex w ≤ endIndex w
   ∧ endIndex w < Z.of_nat (length messages))
  ∧ Z.of_nat (length (visibleMessages messages w))
    = endIndex w - startIndex w + 1
  ∧ ∀ idx : nat,
      (idx < length (visibleMessages messages w))%nat →
      visibleMessages messages w !! idx
      = messages !! Z.to_nat (startIndex w + Z.of_nat idx).
Proof.
  intros Hb Hv Hlen w.
  assert (0 ≤ startIndex w) as H0 by apply getStartIndex_loop_nonneg.
  assert (startIndex w ≤ endIndex w) as H1
    by (apply start_loop_le_end_loop; try done; lia).
  assert (endIndex w < Z.of_nat (length messages)) as H2.
  { pose proof (getEndIndex_loop_upper (length messages) height scrollTop
                  (length messages) 0 (Num 0)) as H.
    change (endIndex w ≤ Z.of_nat (length messages) - 1) in H. lia. }
  assert (visibleMessages messages w
          = take (Z.to_nat (endIndex w + 1 - startIndex w))
              (drop (Z.to_nat (startIndex w)) messages)) as Hslice.
  { unfold visibleMessages, slice.
    replace (startIndex w <? 0) with false by (symmetry; apply Z.ltb_ge; lia).
    replace (endIndex w + 1 <? 0) with false by (symmetry; apply Z.ltb_ge; lia).
    by rewrite !Z.min_l by lia. }
  split; [done|]. rewrite Hslice. split.
  - rewrite length_take, length_drop. lia.
  - intros idx Hidx. rewrite length_take, length_drop in Hidx.
    rewrite lookup_take_lt by lia. rewrite lookup_drop. f_equal. lia.
Qed.

End WindowTheorems.

Lemma visible_items_are_rendered_witness :
  getStartIndex (Num 120) 3 ∅ 100 (Num 5000) ≤ 45
  ∧ 45 ≤ getEndIndex (Num 120) 3 ∅ 100 (Num 600) (Num 5000).
Proof.
  apply (visible_items_are_rendered (Num 120) 3 ∅ 100 (Num 600) (Num 5000) 45).
  - lia.
  - intros i _. exists 120. split; [reflexivity | lia].
  - lia.
  - reflexivity.
  - reflexivity.
Defined.


Lemma visibleMessages_is_index_range_witness :
  let messages := [10; 11; 12; 13; 14; 15; 16; 17; 18; 19; 20; 21] in
  let w := render (Num 120) 1 ∅ (length messages) (Num 300) (Num 500) in
  (0 ≤ startIndex w ∧ startIndex w ≤ endIndex w
   ∧ endIndex w < Z.of_nat (length messages))
  ∧ Z.of_nat (length (visibleMessages messages w))
    = endIndex w - startIndex w + 1
  ∧ ∀ idx : nat,
      (idx < length (visibleMessages messages w))%nat →
      visibleMessages messages w !! idx
      = messages !! Z.to_nat (startIndex w + Z.of_nat idx).
Proof.
  apply (visibleMessages_is_index_range (Num 120) 1 ∅
           [10; 11; 12; 13; 14; 15; 16; 17; 18; 19; 20; 21] (Num 300) (Num 500)).
  - lia.
  - reflexivity.
  - simpl. lia.
Defined.

(** * Further properties of the height cache seen through the window *)

Section HeightUpdates.

Variable defaultHeight : number.

Implicit Types (cache : gmap Z number) (index k : Z) (size : number).

(** Writing at [index] changes the lookup at no other index. *)
Lemma getItemSize_setItemSize_ne cache index size (j : Z) :
  index ≠ j →
  getItemSize defaultHeight (setItemSize cache index size) j
  = getItemSize defaultHeight cache j.
Proof.
  intros Hne. unfold getItemSize. by rewrite lookup_setItemSize_ne.
Qed.

Lemma sumHeights_setItemSize_before cache index size k :
  k ≤ index →
  sumHeights defaultHeight (setItemSize cache index size) k
  = sumHeights defaultHeight cache k.
Proof.
  intros Hk. destruct (Z.le_gt_cases k 0) as [H0|H0].
  { by rewrite !sumHeights_nonpos. }
  replace k with (Z.of_nat (Z.to_nat k)) in * by lia.
  induction (Z.to_nat k) as [|n IH]; [done|].
  replace (Z.of_nat (S n)) with (Z.of_nat n + 1) in * by lia.
  rewrite !sumHeights_succ by lia.
  rewrite getItemSize_setItemSize_ne by lia.
  destruct n as [|n]; [done|]. rewrite IH by lia. done.
Qed.

(** X4 (offsets before a measured item).  Reporting any height for item
    [index] leaves [offsetY] unchanged for every start index up to and
    including [index]: a measurement never moves the item itself nor the
    items before it. *)
Theorem measurement_keeps_earlier_offsets cache index size (startIndex : Z) :
  startIndex ≤ index →
  getOffsetY defaultHeight (setItemSize cache index size) startIndex
  = getOffsetY defaultHeight cache startIndex.
Proof.
  intros H. rewrite !getOffsetY_spec. by apply sumHeights_setItemSize_before.
Qed.

(** X5 (offsets after a measured item).  Heights here are whole numbers of
    pixels, on which the sums of the model are those of the code.  When
    the first [len] items have such heights, replacing the height [old] of
    item [index] by a non-zero height [new] moves the [offsetY] of every
    later start index [startIndex <= len] by [new - old].  (The total height
    the component shows is memoised and does not follow a report.) *)
Theorem measurement_shifts_later_offsets
    cache (len : nat) (m : Z) index (new : Z) (startIndex : Z) :
  heights_at_least m defaultHeight cache len →
  new ≠ 0 →
  0 ≤ index < startIndex → startIndex ≤ Z.of_nat len →
  ∃ old offset : Z,
    getItemSize defaultHeight cache index = Num old
    ∧ getOffsetY defaultHeight cache startIndex = Num offset
    ∧ getOffsetY defaultHeight (setItemSize cache index (Num new)) startIndex
      = Num (offset - old + new).
Proof.
  intros Hh Hnew Hik Hk. rewrite !getOffsetY_spec.
  destruct (Hh index) as (old & Hold & _); [lia|].
  assert (getItemSize defaultHeight (setItemSize cache index (Num new)) index
          = Num new) as Hnew'.
  { rewrite getItemSize_setItemSize. by destruct new. }
  assert (∀ d : nat, index + 1 + Z.of_nat d ≤ Z.of_nat len →
            ∃ total : Z,
              sumHeights defaultHeight cache (index + 1 + Z.of_nat d) = Num total
              ∧ sumHeights defaultHeight (setItemSize cache index (Num new))
                  (index + 1 + Z.of_nat d) = Num (total - old + new)) as Hshift.
  { induction d as [|d IH]; intros Hd.
    - rewrite Z.add_0_r. rewrite !sumHeights_succ by lia.
      rewrite sumHeights_setItemSize_before by lia. rewrite Hold, Hnew'.
      destruct (running_between defaultHeight cache m len index index Hh)
        as (z & _ & Hz & _); [lia..|].
      rewrite Hz. simpl. exists (z + old). split; [done|]. f_equal. lia.
    - destruct IH as (total & Htot & Htot'); [lia|].
      destruct (Hh (index + 1 + Z.of_nat d)) as (h & Hsize & _); [lia|].
      replace (index + 1 + Z.of_nat (S d)) with (index + 1 + Z.of_nat d + 1) by lia.
      rewrite !sumHeights_succ by lia.
      rewrite getItemSize_setItemSize_ne by lia.
      rewrite Htot, Htot', Hsize. simpl.
      exists (total + h). split; [done|]. f_equal. lia. }
  destruct (Hshift (Z.to_nat (startIndex - index - 1)))
    as (total & Htot & Htot'); [lia|].
  replace (index + 1 + Z.of_nat (Z.to_nat (startIndex - index - 1)))
    with startIndex in * by lia.
  by exists old, total.
Qed.

(** X6 (unmeasured feed).  With an empty cache, in particular right after
    [resetHeights], every item counts with the default estimate: the total
    height of [len] items is [len * d] and the offset of start index [k] is
    [k * d]. *)
Theorem unmeasured_heights_are_estimates cache (d : Z) (len k : nat) :
  totalHeight (Num d) (resetHeights cache) len = Num (Z.of_nat len * d)
  ∧ getOffsetY (Num d) (resetHeights cache) (Z.of_nat k) = Num (Z.of_nat k * d).
Proof.
  assert (∀ n : nat, sumHeights (Num d) ∅ (Z.of_nat n) = Num (Z.of_nat n * d))
    as Hsum.
  { induction n as [|n IH]; [done|].
    replace (Z.of_nat (S n)) with (Z.of_nat n + 1) by lia.
    rewrite sumHeights_succ by lia. rewrite IH. simpl. f_equal. lia. }
  unfold resetHeights. by rewrite totalHeight_spec, getOffsetY_spec, !Hsum.
Qed.

End HeightUpdates.

Lemma measurement_keeps_earlier_offsets_witness :
  getOffsetY (Num 120) (setItemSize (<[0 := Num 50]> ∅) 4 (Num 300)) 3
  = getOffsetY (Num 120) (<[0 := Num 50]> ∅) 3.
Proof.
  apply (measurement_keeps_earlier_offsets (Num 120) (<[0 := Num 50]> ∅) 4
           (Num 300) 3).
  lia.
Defined.

Lemma measurement_shifts_later_offsets_witness :
  ∃ old offset : Z,
    getItemSize (Num 120) ∅ 0 = Num old
    ∧ getOffsetY (Num 120) ∅ 10 = Num offset
    ∧ getOffsetY (Num 120) (setItemSize ∅ 0 (Num 50)) 10
      = Num (offset - old + 50).
Proof.
  apply (measurement_shifts_later_offsets (Num 120) ∅ 10 120 0 50 10).
  - intros i _. exists 120. split; [reflexivity | lia].
  - lia.
  - lia.
  - lia.
Defined.

(** * Further properties of the component *)

Module VirtualChatListInvariants.
Import VirtualChatList VirtualChatListViews VirtualChatListFacts.

#[local] Arguments gt : simpl never.

Lemma run_snoc (events : list Event) (e : Event) (s : State) :
  run (events ++ [e]) s = step e (run events s).
Proof. unfold run. by rewrite foldl_app. Qed.

(** An invariant of [step] holds in every reachable state. *)
Lemma reachable_ind (P : State → Prop) :
  (∀ len container, P (mount len container)) →
  (∀ e s, P s → P (step e s)) →
  ∀ s, reachable s → P s.
Proof.
  intros Hmount Hstep s (len & container & events & ->).
  induction events as [|e events IH] using rev_ind; [apply Hmount|].
  rewrite run_snoc. by apply Hstep.
Qed.

(** *** What the pieces of a handler do to the queues *)

Lemma updates_snoc_scrollToBottom
    (q : list (nat * FrameRequestCallback)) (id : nat) :
  filter (λ f, is_update f = true) (q ++ [(id, scrollToBottom)])
  = filter (λ f, is_update f = true) q.
Proof.
  rewrite filter_app, filter_cons_False by done.
  by rewrite filter_nil, app_nil_r.
Qed.

Lemma updates_snoc_throttled
    (q : list (nat * FrameRequestCallback)) (id : nat) (v : number) :
  filter (λ f, is_update f = true) (q ++ [(id, throttled v)])
  = filter (λ f, is_update f = true) q ++ [(id, throttled v)].
Proof.
  rewrite filter_app, filter_cons_True by done.
  by rewrite filter_nil.
Qed.

Lemma autoScrollEffect_queues (s : State) :
  let s' := exec autoScrollEffect s in
  rafId s' = rafId s
  ∧ pending_updates s' = pending_updates s
  ∧ timeouts s' = timeouts s
  ∧ userScrollTimeoutRef s' = userScrollTimeoutRef s
  ∧ heightCache s' = heightCache s
  ∧ isUserScrolling s' = isUserScrolling s.
Proof.
  destruct s as [n top u ref cache el r q t next memo]. unfold_handlers.
  destruct (negb u && (0 <? Z.of_nat n)); simpl; [|done].
  unfold pending_updates. simpl. by rewrite updates_snoc_scrollToBottom.
Qed.

Lemma handleHeightChange_queues
    (captured_length : nat) (captured_isUserScrolling : bool)
    (index : Z) (h : number) (s : State) :
  let s' := exec (handleHeightChange captured_length captured_isUserScrolling
                    index h) s in
  rafId s' = rafId s
  ∧ pending_updates s' = pending_updates s
  ∧ timeouts s' = timeouts s
  ∧ userScrollTimeoutRef s' = userScrollTimeoutRef s
  ∧ isUserScrolling s' = isUserScrolling s
  ∧ messages_length s' = messages_length s
  ∧ heightCache s' = setItemSize (heightCache s) index h.
Proof.
  destruct s as [n top u ref cache el r q t next memo]. unfold_handlers.
  destruct (_ && _); simpl; [|done].
  unfold pending_updates. simpl. by rewrite updates_snoc_scrollToBottom.
Qed.

Lemma resizeObserverCallback_queues
    (captured_length : nat) (captured_isUserScrolling : bool)
    (index : Z) (heights : list number) (s : State) :
  let s' := MessageItem.resizeObserverCallback
              (λ i h, exec (handleHeightChange captured_length
                              captured_isUserScrolling i h))
              index heights s in
  rafId s' = rafId s
  ∧ pending_updates s' = pending_updates s
  ∧ timeouts s' = timeouts s
  ∧ userScrollTimeoutRef s' = userScrollTimeoutRef s
  ∧ isUserScrolling s' = isUserScrolling s
  ∧ messages_length s' = messages_length s.
Proof.
  revert s. induction heights as [|h heights IH]; intros s; [done|].
  simpl. destruct (gt h (Num 0)); [|apply IH].
  specialize (IH (exec (handleHeightChange captured_length
                          captured_isUserScrolling index h) s)).
  pose proof (handleHeightChange_queues captured_length
                captured_isUserScrolling index h s) as H.
  simpl in *. destruct IH as (-> & -> & -> & -> & -> & ->).
  destruct H as (-> & -> & -> & -> & -> & -> & _). done.
Qed.

Lemma step_resize (captured_length : nat) (captured_isUserScrolling : bool)
    (index : Z) (heights : list number) (s : State) :
  step (resize captured_length captured_isUserScrolling index heights) s
  = MessageItem.resizeObserverCallback
      (λ i h, exec (handleHeightChange captured_length
                      captured_isUserScrolling i h))
      index heights s.
Proof.
  unfold step.
  change (exec (handler (resize captured_length captured_isUserScrolling
                           index heights)) s)
    with (MessageItem.resizeObserverCallback
            (λ i h, exec (handleHeightChange captured_length
                            captured_isUserScrolling i h))
            index heights s).
  pose proof (resizeObserverCallback_queues captured_length
                captured_isUserScrolling index heights s)
    as (_ & _ & _ & _ & Hu & Hn).
  simpl in *. by rewrite bool_decide_eq_true_2.
Qed.

(** The handler of a [timeout] event, in full. *)
Lemma handler_timeout (s : State) (id : nat) :
  exec (handler (timeout id)) s
  = if bool_decide (id ∈ timeouts s)
    then (if isAtBottom s then with_isUserScrolling false else λ x, x)
           (with_timeouts (filter (λ x, x ≠ id) (timeouts s)) s)
    else s.
Proof.
  destruct s as [n top u ref cache el r q t next memo]. unfold_handlers.
  unfold isAtBottom. simpl. case_bool_decide; [|done].
  destruct (_ <? 10); done.
Qed.

(** A freshly mounted component has an empty cache and nothing pending but
    the scroll to the bottom of its effect. *)
Lemma mount_fields (len : nat) (container : DOM.HTMLDivElement) :
  heightCache (mount len container) = ∅
  ∧ rafId (mount len container) = None
  ∧ pending_updates (mount len container) = []
  ∧ timeouts (mount len container) = []
  ∧ userScrollTimeoutRef (mount len container) = None.
Proof.
  unfold mount.
  match goal with
  | |- context [exec (layout;; autoScrollEffect) ?s0] =>
      assert (exec (layout;; autoScrollEffect) s0
              = exec autoScrollEffect (exec layout s0)) as ->
        by (unfold exec, mbind, M_bind; by destruct (layout s0));
      destruct (autoScrollEffect_queues (exec layout s0))
        as (-> & -> & -> & -> & -> & _);
      rewrite exec_layout; simpl;
      destruct (Window.totalHeight defaultHeight ∅ len) as [z| | |];
      [destruct (0 <=? z)|..]; done
  end.
Qed.

Lemma step_cases (e : Event) (s : State) :
  step e s = exec (handler e) s
  ∨ step e s = exec autoScrollEffect (exec (handler e) s).
Proof. unfold step. case_bool_decide; auto. Qed.

(** The equality guard of [setItemSize] does not show in the map: the
    result is the map with [size] written at [index]. *)
Lemma setItemSize_insert (cache : gmap Z number) (index : Z) (size : number) :
  setItemSize cache index size = <[index := size]> cache.
Proof.
  unfold setItemSize, strict_neq.
  destruct (cache !! index) as [h|] eqn:E; [|done].
  destruct (strict_eq h size) eqn:Heq; [|done]. simpl.
  apply strict_eq_true in Heq. subst. by rewrite insert_id.
Qed.

(** The cache after a ResizeObserver delivery. *)
Lemma resizeObserverCallback_cache
    (captured_length : nat) (captured_isUserScrolling : bool)
    (index : Z) (heights : list number) (s : State) :
  heightCache
    (MessageItem.resizeObserverCallback
       (λ i h, exec (handleHeightChange captured_length
                       captured_isUserScrolling i h))
       index heights s)
  = match last_positive heights with
    | Some h => <[index := h]> (heightCache s)
    | None => heightCache s
    end.
Proof.
  revert s. induction heights as [|h heights IH]; intros s; [done|].
  simpl. unfold last_positive in *.
  destruct (gt h (Num 0)) eqn:Hh.
  - rewrite filter_cons_True by done. rewrite last_cons, IH.
    pose proof (handleHeightChange_queues captured_length
                  captured_isUserScrolling index h s) as (_ & _ & _ & _ & _ & _ & Hc).
    simpl in Hc. rewrite Hc, setItemSize_insert.
    destruct (last (filter _ heights)); [|done].
    by rewrite insert_insert_eq.
  - rewrite filter_cons_False by (by rewrite Hh). apply IH.
Qed.

Lemma last_positive_positive (heights : list number) (h : number) :
  last_positive heights = Some h → gt h (Num 0) = true.
Proof.
  unfold last_positive. intros Hl.
  assert (h ∈ filter (λ h, gt h (Num 0) = true) heights) as Hin.
  { apply last_Some in Hl as [l' ->]. set_solver. }
  by apply list_elem_of_filter in Hin as [? _].
Qed.

Lemma handler_cache_other (e : Event) (s : State) :
  match e with
  | resize _ _ _ _ => True
  | _ => heightCache (exec (handler e) s) = heightCache s
  end.
Proof.
  destruct e as [cause position| |id|len|cl cu index heights]; try done.
  - by rewrite handler_scroll.
  - pose proof (runFrameCallbacks_frame (frames s) (with_frames [] s))
      as (_ & _ & Hc & _).
    simpl in Hc. replace (exec (handler animationFrame) s)
      with (exec (runFrameCallbacks (frames s)) (with_frames [] s))
      by (by destruct s).
    rewrite Hc. by destruct s.
  - rewrite handler_timeout. case_bool_decide; [|done].
    destruct (isAtBottom s); by destruct s.
  - pose proof (handler_setMessages_frame s len) as Hframe.
    cbv zeta in Hframe. by destruct Hframe as (_ & _ & _ & -> & _).
Qed.

(** X7 (the cache has one writer).  The only events that change the height
    cache are ResizeObserver deliveries, and such a delivery writes the last
    of its heights that is greater than 0 at the item's own index, or
    nothing when none is. *)
Theorem cache_written_only_by_reports (e : Event) (s : State) :
  heightCache (step e s)
  = match e with
    | resize _ _ index heights =>
        match last_positive heights with
        | Some h => <[index := h]> (heightCache s)
        | None => heightCache s
        end
    | _ => heightCache s
    end.
Proof.
  destruct e as [cause position| |id|len|cl cu index heights].
  5: { rewrite step_resize. apply resizeObserverCallback_cache. }
  all: match goal with
       | |- context [step ?e ?st] =>
           destruct (step_cases e st) as [-> | ->];
           [| destruct (autoScrollEffect_queues (exec (handler e) st))
                as (_ & _ & _ & _ & -> & _)];
           apply (handler_cache_other e st)
       end.
Qed.

(** X8 (only valid heights are cached).  In every reachable state of the
    component each cached height is greater than 0; zero, negative and
    [NaN] heights never enter the cache. *)
Theorem cached_heights_positive (s : State) (index : Z) (h : number) :
  reachable s →
  heightCache s !! index = Some h →
  gt h (Num 0) = true.
Proof.
  intros Hs. revert index h.
  induction Hs as [len container | e s IH] using reachable_ind.
  - intros index h.
    destruct (mount_fields len container) as (-> & _).
    by rewrite lookup_empty.
  - intros index h.
    destruct e as [cause position| |id|len|cl cu i heights].
    5: { rewrite step_resize, resizeObserverCallback_cache.
         destruct (last_positive heights) as [h'|] eqn:Hl; [|apply IH].
         destruct (decide (i = index)) as [->|Hne].
         - rewrite lookup_insert_eq. intros [= <-].
           by apply last_positive_positive in Hl.
         - rewrite lookup_insert_ne by done. apply IH. }
    all: match goal with
         | IH' : context [heightCache ?st] |- context [step ?e ?st] =>
             destruct (step_cases e st) as [-> | ->];
             [| destruct (autoScrollEffect_queues (exec (handler e) st))
                  as (_ & _ & _ & _ & -> & _)];
             rewrite (handler_cache_other e st); apply IH'
         end.
Qed.

Lemma cached_heights_positive_witness :
  gt (Num 48) (Num 0) = true.
Proof.
  apply (cached_heights_positive
           (run [resize 10 false 9 [Num (-3); Num 48]] (mount 10 container))
           9 (Num 48)).
  - exists 10%nat, container, [resize 10 false 9 [Num (-3); Num 48]].
    reflexivity.
  - reflexivity.
Defined.

(** *** The throttle and the settle timeout *)

Lemma runFrameCallbacks_rafId (q : list (nat * FrameRequestCallback)) (s : State) :
  rafId (exec (runFrameCallbacks q) s)
  = match filter (λ f, is_update f = true) q with
    | [] => rafId s
    | _ :: _ => None
    end.
Proof.
  revert s. induction q as [|[id cb] q IH]; intros s; [done|].
  simpl. unfold exec in *. unfold mbind, M_bind in *. simpl.
  destruct (runFrameCallback cb s) as [[] s1] eqn:E. rewrite IH.
  destruct cb as [v|].
  - rewrite filter_cons_True by done.
    assert (rafId s1 = None) as -> by (destruct s; inversion E; done).
    by destruct (filter _ q).
  - rewrite filter_cons_False by done.
    assert (rafId s1 = rafId s) as -> by (destruct s; inversion E; done).
    done.
Qed.

Lemma handler_queues (e : Event) (s : State) :
  match e with
  | scroll _ _ | animationFrame => True
  | _ =>
      rafId (exec (handler e) s) = rafId s
      ∧ pending_updates (exec (handler e) s) = pending_updates s
  end.
Proof.
  destruct e as [cause position| |id|len|cl cu index heights]; try done.
  - rewrite handler_timeout. case_bool_decide; [|done].
    destruct (isAtBottom s); by destruct s.
  - pose proof (handler_setMessages_frame s len) as Hframe.
    cbv zeta in Hframe. unfold pending_updates.
    by destruct Hframe as (_ & _ & _ & _ & -> & -> & _).
  - destruct (resizeObserverCallback_queues cl cu index heights s)
      as (H1 & H2 & _).
    split; [exact H1 | exact H2].
Qed.

(** X9 (one update per frame).  In every reachable state at most one
    callback that writes the [scrollTop] state is queued for the next
    animation frame, and [rafId] is [null] exactly when none is: however
    scroll events, frames, timeouts, appends and height reports interleave,
    the scroll position is applied at most once per frame. *)
Theorem at_most_one_update_pending (s : State) :
  reachable s →
  (length (pending_updates s) ≤ 1)%nat
  ∧ (rafId s = None ↔ pending_updates s = []).
Proof.
  intros Hs.
  assert (match rafId s with
          | None => pending_updates s = []
          | Some id => ∃ v, pending_updates s = [(id, throttled v)]
          end) as Hinv.
  { induction Hs as [len container | e s IH] using reachable_ind.
    - by destruct (mount_fields len container) as (_ & -> & -> & _).
    - assert (match rafId (exec (handler e) s) with
              | None => pending_updates (exec (handler e) s) = []
              | Some id => ∃ v, pending_updates (exec (handler e) s)
                                = [(id, throttled v)]
              end) as Hh.
      { destruct e as [cause position| |id|len|cl cu index heights].
        - rewrite handler_scroll. unfold pending_updates in *. simpl.
          destruct (rafId s) as [id|]; [done|].
          rewrite updates_snoc_throttled, IH. by eexists.
        - replace (exec (handler animationFrame) s)
            with (exec (runFrameCallbacks (frames s)) (with_frames [] s))
            by (by destruct s).
          rewrite runFrameCallbacks_rafId.
          pose proof (runFrameCallbacks_frame (frames s) (with_frames [] s))
            as (_ & _ & _ & Hf & _).
          unfold pending_updates in *. simpl in Hf. rewrite Hf.
          replace (frames (with_frames [] s)) with (@nil (nat * FrameRequestCallback))
            by (by destruct s).
          replace (rafId (with_frames [] s)) with (rafId s) by (by destruct s).
          destruct (rafId s) as [id|].
          + destruct IH as [v ->]. done.
          + by rewrite IH.
        - destruct (handler_queues (timeout id) s) as [-> ->]. done.
        - destruct (handler_queues (setMessages len) s) as [-> ->]. done.
        - destruct (handler_queues (resize cl cu index heights) s) as [-> ->].
          done. }
      destruct (step_cases e s) as [-> | ->]; [done|].
      destruct (autoScrollEffect_queues (exec (handler e) s)) as (-> & -> & _).
      done. }
  destruct (rafId s) as [id|].
  - destruct Hinv as [v ->]. simpl. split; [lia|]. split; done.
  - rewrite Hinv. simpl. split; [lia|]. done.
Qed.

Lemma at_most_one_update_pending_witness :
  let s := run [animationFrame; scroll UserDriven 100; scroll UserDriven 250;
                setMessages 11; scroll ProgrammaticAutoScroll 300]
             (mount 10 container) in
  (length (pending_updates s) ≤ 1)%nat
  ∧ (rafId s = None ↔ pending_updates s = []).
Proof.
  apply (at_most_one_update_pending
           (run [animationFrame; scroll UserDriven 100; scroll UserDriven 250;
                 setMessages 11; scroll ProgrammaticAutoScroll 300]
              (mount 10 container))).
  exists 10%nat, container,
    [animationFrame; scroll UserDriven 100; scroll UserDriven 250;
     setMessages 11; scroll ProgrammaticAutoScroll 300].
  reflexivity.
Defined.

Lemma handler_timers (e : Event) (s : State) :
  match e with
  | scroll _ _ | timeout _ => True
  | _ =>
      timeouts (exec (handler e) s) = timeouts s
      ∧ userScrollTimeoutRef (exec (handler e) s) = userScrollTimeoutRef s
  end.
Proof.
  destruct e as [cause position| |id|len|cl cu index heights]; try done.
  - replace (exec (handler animationFrame) s)
      with (exec (runFrameCallbacks (frames s)) (with_frames [] s))
      by (by destruct s).
    assert (∀ q st, timeouts (exec (runFrameCallbacks q) st) = timeouts st
                    ∧ userScrollTimeoutRef (exec (runFrameCallbacks q) st)
                      = userScrollTimeoutRef st) as H.
    { induction q as [|[id cb] q IH]; intros st; [done|].
      simpl. unfold exec in *. unfold mbind, M_bind in *. simpl.
      destruct (runFrameCallback cb st) as [[] s1] eqn:E.
      destruct (IH s1) as [-> ->].
      destruct cb; destruct st; inversion E; done. }
    destruct (H (frames s) (with_frames [] s)) as [-> ->]. by destruct s.
  - pose proof (handler_setMessages_frame s len) as Hframe.
    cbv zeta in Hframe.
    by destruct Hframe as (_ & _ & _ & _ & _ & _ & -> & -> & _).
  - destruct (resizeObserverCallback_queues cl cu index heights s)
      as (_ & _ & H1 & H2 & _).
    split; [exact H1 | exact H2].
Qed.

(** X10 (one settle timeout).  In every reachable state at most one settle
    timeout is pending, and it is the one whose handle
    [userScrollTimeoutRef] holds: each scroll event cancels the timeout of
    the previous one before arming its own. *)
Theorem at_most_one_timeout_pending (s : State) :
  reachable s →
  (length (timeouts s) ≤ 1)%nat
  ∧ ∀ id, id ∈ timeouts s → userScrollTimeoutRef s = Some id.
Proof.
  intros Hs.
  assert (timeouts s = []
          ∨ ∃ id, timeouts s = [id] ∧ userScrollTimeoutRef s = Some id) as Hinv.
  { induction Hs as [len container | e s IH] using reachable_ind.
    - left. by destruct (mount_fields len container) as (_ & _ & _ & -> & _).
    - assert (timeouts (exec (handler e) s) = []
              ∨ ∃ id, timeouts (exec (handler e) s) = [id]
                      ∧ userScrollTimeoutRef (exec (handler e) s) = Some id)
        as Hh.
      { destruct e as [cause position| |id|len|cl cu index heights].
        - right. rewrite handler_scroll. simpl. eexists. split; [|done].
          f_equal. destruct IH as [-> | (id & -> & ->)].
          + by destruct (userScrollTimeoutRef s).
          + by rewrite filter_cons_False, filter_nil by (intros H; by apply H).
        - destruct (handler_timers animationFrame s) as [-> ->]. done.
        - rewrite handler_timeout. case_bool_decide as Hin; [|done].
          left. destruct IH as [H | (id' & H & _)]; rewrite H in Hin.
          + by apply elem_of_nil in Hin.
          + apply list_elem_of_singleton in Hin as ->.
            assert (timeouts (with_timeouts (filter (λ x, x ≠ id') (timeouts s)) s)
                    = []) as Ht.
            { destruct s; simpl in *. subst.
              by rewrite filter_cons_False, filter_nil by (intros H; by apply H). }
            destruct (isAtBottom s); [|done]. by destruct s.
        - destruct (handler_timers (setMessages len) s) as [-> ->]. done.
        - destruct (handler_timers (resize cl cu index heights) s) as [-> ->].
          done. }
      destruct (step_cases e s) as [-> | ->]; [done|].
      destruct (autoScrollEffect_queues (exec (handler e) s))
        as (_ & _ & -> & -> & _).
      done. }
  destruct Hinv as [-> | (id & -> & ->)].
  - split; [simpl; lia|]. intros id Hin. by apply elem_of_nil in Hin.
  - split; [simpl; lia|]. intros id' Hin.
    by apply list_elem_of_singleton in Hin as ->.
Qed.

Lemma at_most_one_timeout_pending_witness :
  let s := run [animationFrame; scroll UserDriven 100; scroll UserDriven 250;
                animationFrame; scroll UserDriven 300]
             (mount 10 container) in
  (length (timeouts s) ≤ 1)%nat
  ∧ ∀ id, id ∈ timeouts s → userScrollTimeoutRef s = Some id.
Proof.
  apply (at_most_one_timeout_pending
           (run [animationFrame; scroll UserDriven 100; scroll UserDriven 250;
                 animationFrame; scroll UserDriven 300]
              (mount 10 container))).
  exists 10%nat, container,
    [animationFrame; scroll UserDriven 100; scroll UserDriven 250;
     animationFrame; scroll UserDriven 300].
  reflexivity.
Defined.

(** *** The pin state machine *)

(** X11 (pin transitions).  A scroll event always leaves the feed Unpinned;
    the expiry of a pending settle timeout pins it when the container is
    less than 10 px from the bottom and changes nothing otherwise; animation
    frames, new messages, height reports and stale timeouts never change the
    pin state. *)
Theorem pin_state_transitions (e : Event) (s : State) :
  pinState (step e s)
  = match e with
    | scroll _ _ => Unpinned
    | timeout id =>
        if bool_decide (id ∈ timeouts s) && isAtBottom s
        then Pinned else pinState s
    | _ => pinState s
    end.
Proof.
  unfold pinState. rewrite step_isUserScrolling.
  destruct e as [cause position| |id|len|cl cu index heights].
  - by rewrite handler_scroll.
  - replace (exec (handler animationFrame) s)
      with (exec (runFrameCallbacks (frames s)) (with_frames [] s))
      by (by destruct s).
    pose proof (runFrameCallbacks_frame (frames s) (with_frames [] s))
      as (_ & Hu & _).
    simpl in Hu. rewrite Hu. by destruct s.
  - rewrite handler_timeout. case_bool_decide; [|done]. simpl.
    destruct (isAtBottom s); by destruct s.
  - pose proof (handler_setMessages_frame s len) as Hframe.
    cbv zeta in Hframe. by destruct Hframe as (_ & -> & _).
  - destruct (resizeObserverCallback_queues cl cu index heights s)
      as (_ & _ & _ & _ & Hu & _).
    simpl in Hu.
    replace (exec (handler (resize cl cu index heights)) s)
      with (MessageItem.resizeObserverCallback
              (λ i h, exec (handleHeightChange cl cu i h)) index heights s)
      by reflexivity.
    by rewrite Hu.
Qed.

(** X12 (settling at the bottom resumes auto-scroll).  When the settle
    timeout of an unpinned, non-empty feed expires with the container less
    than 10 px from the bottom, the feed is pinned again and, the effect
    running on the change of [isUserScrolling], a scroll to the bottom is
    queued for the next frame at once. *)
Theorem settle_at_bottom_resumes_auto_scroll (s : State) (id : nat) :
  isUserScrolling s = true →
  id ∈ timeouts s →
  isAtBottom s = true →
  (0 < messages_length s)%nat →
  let s' := step (timeout id) s in
  pinState s' = Pinned
  ∧ frames s' = frames s ++ [(next_handle s, scrollToBottom)]
  ∧ id ∉ timeouts s'.
Proof.
  intros Hu Hin Hbottom Hlen s'.
  assert (s' = with_frames (frames s ++ [(next_handle s, scrollToBottom)])
                 (with_next_handle (S (next_handle s))
                    (with_isUserScrolling false
                       (with_timeouts (filter (λ x, x ≠ id) (timeouts s)) s))))
    as ->.
  { subst s'. unfold step. rewrite handler_timeout.
    rewrite (bool_decide_eq_true_2 (id ∈ timeouts s)) by done.
    rewrite Hbottom.
    rewrite bool_decide_eq_false_2
      by (destruct s; simpl in *; subst; intros [_ ?]; done).
    rewrite autoScrollEffect_pinned; by destruct s. }
  split; [by destruct s|]. split; [by destruct s|].
  replace (timeouts _) with (filter (λ x, x ≠ id) (timeouts s))
    by (by destruct s).
  intros H. apply list_elem_of_filter in H as [H _]. by apply H.
Qed.

Lemma settle_at_bottom_resumes_auto_scroll_witness :
  let s := run [scroll UserDriven 595; animationFrame] pinned_feed in
  let s' := step (timeout 3) s in
  pinState s' = Pinned
  ∧ frames s' = frames s ++ [(next_handle s, scrollToBottom)]
  ∧ 3%nat ∉ timeouts s'.
Proof.
  apply (settle_at_bottom_resumes_auto_scroll
           (run [scroll UserDriven 595; animationFrame] pinned_feed) 3).
  - reflexivity.
  - vm_compute. apply list_elem_of_here.
  - reflexivity.
  - vm_compute. lia.
Defined.

(** *** The memoised total height and the layout *)

Lemma autoScrollEffect_layout (s : State) :
  totalHeight_memo (exec autoScrollEffect s) = totalHeight_memo s
  ∧ containerRef (exec autoScrollEffect s) = containerRef s.
Proof.
  destruct s as [n top u ref cache el r q t next memo]. unfold_handlers.
  destruct (negb u && (0 <? Z.of_nat n)); done.
Qed.

Lemma runFrameCallbacks_memo (q : list (nat * FrameRequestCallback)) (s : State) :
  totalHeight_memo (exec (runFrameCallbacks q) s) = totalHeight_memo s.
Proof.
  revert s. induction q as [|[id cb] q IH]; intros s; [done|].
  simpl. unfold exec in *. unfold mbind, M_bind in *. simpl.
  destruct (runFrameCallback cb s) as [[] s1] eqn:E. rewrite IH.
  destruct cb; destruct s; inversion E; done.
Qed.

Lemma resizeObserverCallback_layout
    (captured_length : nat) (captured_isUserScrolling : bool)
    (index : Z) (heights : list number) (s : State) :
  let s' := MessageItem.resizeObserverCallback
              (λ i h, exec (handleHeightChange captured_length
                              captured_isUserScrolling i h))
              index heights s in
  totalHeight_memo s' = totalHeight_memo s
  ∧ containerRef s' = containerRef s.
Proof.
  revert s. induction heights as [|h heights IH]; intros s; [done|].
  simpl. destruct (gt h (Num 0)); [|apply IH].
  specialize (IH (exec (handleHeightChange captured_length
                          captured_isUserScrolling index h) s)).
  simpl in IH. destruct IH as [-> ->].
  destruct s as [n top u ref cache el r q t next memo]. unfold_handlers.
  destruct (_ && _); done.
Qed.

(** X21 (the total height follows the length only).  The memoised
    [totalHeight] is computed again, on the cache as it is then, by the
    render that follows a change of [messages.length] and by nothing else:
    scroll events, animation frames, timeouts and height reports leave it as
    it was, so that after a height report the placeholder keeps the height
    computed before the report. *)
Theorem total_height_follows_length_only (e : Event) (s : State) :
  totalHeight_memo (step e s)
  = match e with
    | setMessages len =>
        if bool_decide (len = messages_length s) then totalHeight_memo s
        else Window.totalHeight defaultHeight (heightCache s) len
    | _ => totalHeight_memo s
    end.
Proof.
  assert (totalHeight_memo (step e s) = totalHeight_memo (exec (handler e) s))
    as ->.
  { destruct (step_cases e s) as [-> | ->]; [done|].
    apply autoScrollEffect_layout. }
  destruct e as [cause position| |id|len|cl cu index heights].
  - by rewrite handler_scroll.
  - replace (exec (handler animationFrame) s)
      with (exec (runFrameCallbacks (frames s)) (with_frames [] s))
      by (by destruct s).
    rewrite runFrameCallbacks_memo. by destruct s.
  - rewrite handler_timeout. case_bool_decide; [|done].
    destruct (isAtBottom s); by destruct s.
  - rewrite handler_setMessages. case_bool_decide; [by destruct s|].
    rewrite exec_layout.
    destruct s as [n top u ref cache el r q t next memo]. simpl.
    destruct (Window.totalHeight defaultHeight cache len) as [z| | |];
      [destruct (0 <=? z)|..]; done.
  - apply (resizeObserverCallback_layout cl cu index heights s).
Qed.

(** X22 (a height report leaves the layout alone).  A ResizeObserver
    delivery, whatever heights it carries, changes neither the position nor
    the scroll height of the container: the cache is written, the
    placeholder is not. *)
Theorem height_report_keeps_container
    (captured_length : nat) (captured_isUserScrolling : bool)
    (index : Z) (heights : list number) (s : State) :
  containerRef
    (step (resize captured_length captured_isUserScrolling index heights) s)
  = containerRef s.
Proof.
  rewrite step_resize.
  apply (resizeObserverCallback_layout captured_length
           captured_isUserScrolling index heights s).
Qed.



End VirtualChatListInvariants.

(** * The message store *)

Section ChatStoreFacts.
Import ChatStore.

Context {K : Type} `{Countable K}.
Variable Others : Type.
Variable no_others : Others.

Local Abbreviation Message := (MessageProps Others).
Local Abbreviation push := (pushChunk Others no_others).
Local Abbreviation reply := (fresh_reply Others no_others).

Implicit Types (messages : gmap K (list Message)) (selectedId : K)
  (chunk : string) (l : list Message).

Lemma string_app_assoc (a b c : string) :
  ((a +:+ b) +:+ c = a +:+ (b +:+ c))%string.
Proof.
  induction a as [|x a IH]; [reflexivity|].
  change (String x ((a +:+ b) +:+ c) = String x (a +:+ (b +:+ c)))%string.
  by rewrite IH.
Qed.

Lemma string_app_nil_r (a : string) : (a +:+ "")%string = a.
Proof.
  induction a as [|x a IH]; [reflexivity|].
  change (String x (a +:+ "") = String x a)%string. by rewrite IH.
Qed.

Lemma set_last_snoc {A : Type} (l0 : list A) (x y : A) :
  set_last (l0 ++ [x]) y = l0 ++ [y].
Proof.
  unfold set_last. rewrite length_app. simpl.
  rewrite insert_app_r_alt by lia.
  by replace (length l0 + 1 - 1 - length l0)%nat with 0%nat by lia.
Qed.

(** The three cases of [pushChunk]. *)
Lemma pushChunk_fresh l chunk :
  match last l with
  | Some y => role y ≠ "system"
  | None => True
  end →
  push chunk l = l ++ [reply chunk].
Proof.
  unfold pushChunk. destruct (last l) as [y|]; [|done].
  intros Hr. apply String.eqb_neq in Hr. by rewrite Hr.
Qed.

Lemma pushChunk_extend l0 (c0 : list (MessageContent Others))
    (t : MessageContent Others) (r : string) chunk :
  r = "system" → type t = "text" →
  push chunk (l0 ++ [{| msg_content := c0 ++ [t]; role := r |}])
  = l0 ++ [{| msg_content :=
                c0 ++ [{| type := type t; content := content t +:+ chunk;
                          others := others t |}];
              role := r |}].
Proof.
  intros -> Ht. unfold pushChunk. rewrite last_snoc. simpl.
  rewrite last_snoc, Ht. simpl. by rewrite !set_last_snoc.
Qed.

Lemma pushChunk_reply l (a b : string) :
  push b (l ++ [reply a]) = l ++ [reply (a +:+ b)].
Proof.
  apply (pushChunk_extend l []
           {| type := "text"; content := a; others := no_others |} "system");
    done.
Qed.

Lemma pushChunk_dropped l (y : Message) chunk :
  last l = Some y → role y = "system" →
  match last (msg_content y) with
  | Some t => type t ≠ "text"
  | None => True
  end →
  push chunk l = l.
Proof.
  intros Hl Hr Ht. apply last_Some in Hl as [l0 ->].
  unfold pushChunk. rewrite last_snoc, Hr. simpl.
  destruct y as [c r]. simpl in *.
  destruct (last c) as [t|].
  - apply String.eqb_neq in Ht. rewrite Ht. by rewrite set_last_snoc, Hr.
  - by rewrite set_last_snoc, Hr.
Qed.

Lemma pushChunk_compose l (a b : string) :
  push b (push a l) = push (a +:+ b) l.
Proof.
  destruct (last l) as [y|] eqn:Hl.
  - destruct (String.eqb (role y) "system") eqn:Hr.
    + apply String.eqb_eq in Hr.
      destruct (last (msg_content y)) as [t|] eqn:Hc.
      * destruct (String.eqb (type t) "text") eqn:Ht.
        -- apply String.eqb_eq in Ht.
           apply last_Some in Hl as [l0 ->]. destruct y as [c r].
           simpl in *. apply last_Some in Hc as [c0 ->].
           rewrite !pushChunk_extend by done.
           simpl. by rewrite string_app_assoc.
        -- apply String.eqb_neq in Ht.
           rewrite !(pushChunk_dropped l y) by (try done; by rewrite Hc).
           done.
      * rewrite !(pushChunk_dropped l y) by (try done; by rewrite Hc). done.
    + apply String.eqb_neq in Hr.
      rewrite !(pushChunk_fresh l) by (by rewrite Hl).
      by rewrite pushChunk_reply.
  - rewrite !(pushChunk_fresh l) by (by rewrite Hl).
    by rewrite pushChunk_reply.
Qed.

(** X13 (chunks compose).  Delivering a chunk [a] and then a chunk [b] to
    the selected conversation leaves the store exactly as delivering the
    single chunk [a + b] does. *)
Theorem addChunkMessage_compose messages selectedId (a b : string) :
  addChunkMessage Others no_others selectedId b
    (addChunkMessage Others no_others selectedId a messages)
  = addChunkMessage Others no_others selectedId (a +:+ b) messages.
Proof.
  unfold addChunkMessage. rewrite lookup_insert_eq. simpl.
  by rewrite insert_insert_eq, pushChunk_compose.
Qed.

(** X14 (a streamed reply).  After a message whose role is not ['system']
    has been added, a non-empty stream of chunks leaves the conversation as
    it was before, followed by that message and by one system message whose
    single text item holds the chunks joined in order. *)
Theorem streamed_reply_is_one_message
    messages selectedId (message : Message) chunk (chunks : list string) :
  role message ≠ "system" →
  addChunkMessages Others no_others selectedId (chunk :: chunks)
    (addMessage Others selectedId message messages) !! selectedId
  = Some (default [] (messages !! selectedId)
          ++ [message; reply (joined (chunk :: chunks))]).
Proof.
  intros Hr. unfold addChunkMessages. simpl.
  set (old := default [] (messages !! selectedId)).
  assert (addChunkMessage Others no_others selectedId chunk
            (addMessage Others selectedId message messages) !! selectedId
          = Some ((old ++ [message]) ++ [reply chunk])) as Hfirst.
  { unfold addChunkMessage, addMessage. rewrite !lookup_insert_eq. simpl.
    f_equal. destruct message as [c r]. simpl in *.
    apply pushChunk_fresh. by rewrite last_snoc. }
  revert Hfirst.
  generalize (addChunkMessage Others no_others selectedId chunk
                (addMessage Others selectedId message messages)).
  generalize chunk. clear chunk.
  induction chunks as [|next chunks IH]; intros chunk m Hm; simpl.
  - rewrite Hm. unfold joined. simpl.
    rewrite string_app_nil_r. by rewrite <- app_assoc.
  - rewrite (IH (chunk +:+ next)%string).
    + unfold joined. simpl. by rewrite string_app_assoc.
    + unfold addChunkMessage. rewrite lookup_insert_eq, Hm. simpl. f_equal.
      by rewrite pushChunk_reply.
Qed.

(** X15 (a dropped chunk).  When the selected conversation ends with a
    system message whose content is empty or ends with an item that is not
    of type ['text'], the chunk is discarded: the store does not change. *)
Theorem chunk_dropped_after_non_text_item
    messages selectedId l (y : Message) chunk :
  messages !! selectedId = Some l →
  last l = Some y →
  role y = "system" →
  match last (msg_content y) with
  | Some t => type t ≠ "text"
  | None => True
  end →
  addChunkMessage Others no_others selectedId chunk messages = messages.
Proof.
  intros Hm Hl Hr Ht. unfold addChunkMessage. rewrite Hm. simpl.
  rewrite (pushChunk_dropped l y) by done. by apply insert_id.
Qed.

(** X16 (a chunk touches the last message only).  A chunk changes no other
    conversation; in the selected one it keeps every message but the last,
    adds at most one message, and leaves a system message last. *)
Theorem chunk_touches_only_last_message messages selectedId chunk :
  let old := default [] (messages !! selectedId) in
  let m' := addChunkMessage Others no_others selectedId chunk messages in
  (∀ j, j ≠ selectedId → m' !! j = messages !! j)
  ∧ ∃ new,
      m' !! selectedId = Some new
      ∧ take (length old - 1) new = take (length old - 1) old
      ∧ (length old ≤ length new ≤ length old + 1)%nat
      ∧ ∃ y, last new = Some y ∧ role y = "system".
Proof.
  intros old m'. split.
  - intros j Hj. subst m'. unfold addChunkMessage.
    by rewrite lookup_insert_ne.
  - exists (push chunk old). split.
    { subst m'. unfold addChunkMessage. by rewrite lookup_insert_eq. }
    clearbody old. clear m'.
    destruct (last old) as [y|] eqn:Hl.
    + apply last_Some in Hl as [l0 ->].
      rewrite length_app. simpl.
      replace (length l0 + 1 - 1)%nat with (length l0) by lia.
      destruct (String.eqb (role y) "system") eqn:Hr.
      * apply String.eqb_eq in Hr.
        assert (∃ c, push chunk (l0 ++ [y])
                     = l0 ++ [{| msg_content := c; role := role y |}])
          as [c ->].
        { unfold pushChunk. rewrite last_snoc, Hr. simpl. eexists.
          apply set_last_snoc. }
        rewrite !take_app_length, length_app. simpl.
        split; [done|]. split; [lia|]. eexists. by rewrite last_snoc.
      * apply String.eqb_neq in Hr.
        rewrite (pushChunk_fresh (l0 ++ [y])) by (by rewrite last_snoc).
        rewrite !length_app. simpl. split; [|split; [lia|]].
        -- rewrite <- app_assoc. by rewrite !take_app_length.
        -- eexists. by rewrite last_snoc.
    + rewrite (pushChunk_fresh old) by (by rewrite Hl).
      rewrite length_app. simpl. split; [|split; [lia|]].
      * rewrite take_app_le by lia. done.
      * eexists. by rewrite last_snoc.
Qed.

End ChatStoreFacts.

Lemma streamed_reply_is_one_message_witness :
  let question : ChatStore.MessageProps unit :=
    {| ChatStore.msg_content :=
         [{| ChatStore.type := "text"; ChatStore.content := "hi";
             ChatStore.others := tt |}];
       ChatStore.role := "user" |} in
  ChatStore.addChunkMessages unit tt "c1" ["Hel"; "lo"]
    (ChatStore.addMessage unit "c1" question ∅) !! "c1"
  = Some (default [] ((∅ : gmap string (list (ChatStore.MessageProps unit))) !! "c1")
          ++ [question;
              ChatStore.fresh_reply unit tt (ChatStore.joined ["Hel"; "lo"])]).
Proof.
  apply (streamed_reply_is_one_message unit tt ∅ "c1"
           {| ChatStore.msg_content :=
                [{| ChatStore.type := "text"; ChatStore.content := "hi";
                    ChatStore.others := tt |}];
              ChatStore.role := "user" |} "Hel" ["lo"]).
  simpl. discriminate.
Defined.

Lemma chunk_dropped_after_non_text_item_witness :
  let picture : ChatStore.MessageProps unit :=
    {| ChatStore.msg_content :=
         [{| ChatStore.type := "image"; ChatStore.content := "a.png";
             ChatStore.others := tt |}];
       ChatStore.role := "system" |} in
  ChatStore.addChunkMessage unit tt "c1" "Hello" {[ "c1" := [picture] ]}
  = {[ "c1" := [picture] ]}.
Proof.
  apply (chunk_dropped_after_non_text_item unit tt
           {[ "c1" := [ {| ChatStore.msg_content :=
                             [{| ChatStore.type := "image";
                                 ChatStore.content := "a.png";
                                 ChatStore.others := tt |}];
                           ChatStore.role := "system" |} ] ]}
           "c1"
           [ {| ChatStore.msg_content :=
                  [{| ChatStore.type := "image"; ChatStore.content := "a.png";
                      ChatStore.others := tt |}];
                ChatStore.role := "system" |} ]
           {| ChatStore.msg_content :=
                [{| ChatStore.type := "image"; ChatStore.content := "a.png";
                    ChatStore.others := tt |}];
              ChatStore.role := "system" |}
           "Hello").
  - apply lookup_singleton_eq.
  - reflexivity.
  - reflexivity.
  - simpl. discriminate.
Defined.

(** * The height estimate *)

Section EstimateFacts.
Import EstimateTextHeight.

Lemma count_matches_short (content : list N) :
  (length content < 3)%nat → count_matches content = 0%nat.
Proof.
  destruct content as [|c1 [|c2 [|c3 rest]]]; simpl; try done. lia.
Qed.

(** Appending text never loses a match: the scan of the longer string finds
    the matches of the shorter one at the same places. *)
Lemma count_matches_app (a b : list N) :
  (count_matches a ≤ count_matches (a ++ b))%nat.
Proof.
  remember (length a) as n eqn:Hn. revert a Hn.
  induction n as [n IH] using lt_wf_ind. intros a ->.
  destruct a as [|c1 rest1]; [simpl; lia|].
  destruct rest1 as [|c2 [|c3 rest3]].
  - rewrite (count_matches_short [c1]) by (simpl; lia). lia.
  - rewrite (count_matches_short [c1; c2]) by (simpl; lia). lia.
  - change ((c1 :: c2 :: c3 :: rest3) ++ b) with (c1 :: c2 :: c3 :: (rest3 ++ b)).
    cbn [count_matches].
    destruct ((c1 =? backtick)%N && (c2 =? backtick)%N && (c3 =? backtick)%N).
    + pose proof (IH (length rest3) ltac:(simpl; lia) rest3 eq_refl). lia.
    + apply (IH (length (c2 :: c3 :: rest3)) ltac:(simpl; lia)
               (c2 :: c3 :: rest3) eq_refl).
Qed.

(** X17 (bounds of the estimate).  The estimate never exceeds 1000, and it
    is never below the base height capped at 1000. *)
Theorem estimateTextHeight_bounds (content : list N) (baseHeight : Z) :
  Z.min baseHeight 1000 ≤ estimateTextHeight content baseHeight ≤ 1000.
Proof.
  unfold estimateTextHeight.
  assert (0 ≤ (Z.of_nat (length content) + 49) / 50)
    by (apply Z.div_pos; lia).
  destruct (0 <? Z.of_nat (count_matches content)) eqn:Hm; lia.
Qed.

(** X18 (the estimate grows with the text).  Appending text to a message,
    as the chunks of a streamed reply do, never lowers its estimated
    height. *)
Theorem estimateTextHeight_app (a b : list N) (baseHeight : Z) :
  estimateTextHeight a baseHeight ≤ estimateTextHeight (a ++ b) baseHeight.
Proof.
  unfold estimateTextHeight.
  pose proof (count_matches_app a b) as Hc.
  assert ((Z.of_nat (length a) + 49) / 50
          ≤ (Z.of_nat (length (a ++ b)) + 49) / 50) as Hl.
  { apply Z.div_le_mono; [lia|]. rewrite length_app. lia. }
  destruct (0 <? Z.of_nat (count_matches a)) eqn:Ha;
    destruct (0 <? Z.of_nat (count_matches (a ++ b))) eqn:Hab;
    try apply Z.ltb_lt in Ha; try apply Z.ltb_ge in Ha;
    try apply Z.ltb_lt in Hab; try apply Z.ltb_ge in Hab; lia.
Qed.

End EstimateFacts.

(** * The timing helpers *)

Section DebounceFacts.
Import Debounce.

Variable Args : Type.

Implicit Types (s : State Args) (args : Args).

Lemma one_pending_step (e : Event Args) s :
  one_pending s → one_pending (step e s).
Proof.
  intros Hinv. destruct e as [args | id]; simpl.
  - right. exists (next_handle s), args. unfold call. simpl. split; [|done].
    destruct Hinv as [-> | (id & a & -> & ->)].
    + by destruct (timeout s).
    + unfold clearTimeout. by rewrite filter_cons_False, filter_nil by (by intros ?).
  - unfold fire.
    destruct (list_find _ (timers s)) as [[i [id' a]]|] eqn:Hf; [|done].
    left. simpl. apply list_find_Some in Hf as (Hi & Hid & _). simpl in Hid.
    subst id'. destruct Hinv as [Ht | (id' & a' & Ht & _)]; rewrite Ht in *.
    + done.
    + destruct i; simpl in Hi; [|done]. injection Hi as -> ->.
      unfold clearTimeout. by rewrite filter_cons_False, filter_nil by (by intros ?).
Qed.

Lemma one_pending_run (events : list (Event Args)) :
  one_pending (run events init).
Proof.
  induction events as [|e events IH] using rev_ind.
  - by left.
  - unfold run in *. rewrite foldl_app. simpl. by apply one_pending_step.
Qed.

(** X19 (debounce: the last call wins).  Whatever calls and expiries came
    before, a call leaves exactly one timeout pending, the one it has just
    set with its own arguments, every earlier one being cancelled, and makes
    no call to [func]; when that timeout expires, [func] is called once,
    with the arguments of that last call, and nothing is left pending. *)
Theorem debounce_last_call_wins (events : list (Event Args)) args :
  let s := run events init in
  let s' := call args s in
  timers s' = [(next_handle s, args)]
  ∧ calls s' = calls s
  ∧ calls (fire (next_handle s) s') = calls s ++ [args]
  ∧ timers (fire (next_handle s) s') = [].
Proof.
  intros s s'.
  assert (timers s' = [(next_handle s, args)]) as Ht.
  { subst s'. unfold call. simpl.
    destruct (one_pending_run events) as [Hs | (id & a & Hs & Hid)];
      fold s in Hs; rewrite Hs.
    - by destruct (timeout s).
    - fold s in Hid. rewrite Hid. unfold clearTimeout.
      by rewrite filter_cons_False, filter_nil by (by intros ?). }
  split; [done|]. split; [done|].
  unfold fire. rewrite Ht. simpl. rewrite decide_True by done. simpl.
  split; [done|]. unfold clearTimeout.
  by rewrite filter_cons_False, filter_nil by (by intros ?).
Qed.

End DebounceFacts.

Section ThrottleFacts.
Import Throttle.

Variable Args : Type.
Variable wait : Z.

Local Abbreviation step' := (step Args wait).
Local Abbreviation run' := (run Args wait).
Local Abbreviation spaced' := (spaced Args wait).
Local Abbreviation consistent' := (consistent Args wait).

Implicit Types (s : State Args) (args : Args) (log : list (Z * Args)).

Lemma spaced_snoc log (now : Z) args :
  spaced' log →
  (∀ c, last log = Some c → c.1 + wait ≤ now) →
  spaced' (log ++ [(now, args)]).
Proof.
  induction log as [|c1 log IH]; intros Hs Hlast; [done|].
  destruct Hs as [Hgap Hs]. simpl. split.
  - destruct log as [|c2 log]; simpl; [|done]. by apply Hlast.
  - apply IH; [done|]. intros c Hc. apply Hlast.
    destruct log; [done|]. by rewrite last_cons, Hc.
Qed.

Lemma throttle_step (t : Z) (e : Event Args) s :
  consistent' t s → spaced' (calls s) → timely Args t e s →
  consistent' (time_of e) (step' e s) ∧ spaced' (calls (step' e s)).
Proof.
  intros (Hprev & Hlast & Htimers) Hspaced [Ht Hdue].
  destruct e as [now args | now id]; simpl in *.
  - unfold call.
    destruct ((wait - (now - previous s) <=? 0)
              || (wait <? wait - (now - previous s))) eqn:Hnow.
    + (* the call goes through at once *)
      assert (wait ≤ now - previous s) as Hgap.
      { apply orb_true_iff in Hnow as [H | H].
        - apply Z.leb_le in H. lia.
        - apply Z.ltb_lt in H. lia. }
      split; [split; [|split]|]; simpl.
      * lia.
      * intros c. rewrite last_snoc. by intros [= <-].
      * left. destruct Htimers as [-> | (id & a & -> & ->)].
        -- by destruct (timeout s).
        -- by rewrite filter_cons_False, filter_nil by (by intros ?).
      * apply spaced_snoc; [done|]. intros c Hc. rewrite (Hlast c Hc). lia.
    + destruct (timeout s) as [id|] eqn:Hid.
      * (* a timeout is pending: the call is dropped *)
        split; [|done]. split; [lia|]. split; [done|].
        by rewrite Hid.
      * (* the call is deferred *)
        split; [|done]. split; [simpl; lia|]. split; [done|]. simpl.
        right. exists (next_handle s), args. split; [|done].
        destruct Htimers as [-> | (id & a & _ & Hc)]; [|congruence].
        simpl. do 3 f_equal. lia.
  - unfold fire.
    destruct (list_find _ (timers s)) as [[i [id' [due a]]]|] eqn:Hf.
    + apply list_find_Some in Hf as (Hi & Hid & _). simpl in Hid. subst id'.
      destruct Htimers as [Hnil | (id' & a' & Hone & _)]; rewrite ?Hnil, ?Hone in *.
      { done. }
      destruct i; simpl in Hi; [|done]. injection Hi as Hid Hd Ha. subst.
      assert (previous s + wait ≤ now) as Hgap.
      { eapply Hdue. apply list_elem_of_here. }
      split; [split; [|split]|]; simpl.
      * lia.
      * intros c. rewrite last_snoc. by intros [= <-].
      * left. by rewrite filter_cons_False, filter_nil by (by intros ?).
      * apply spaced_snoc; [done|]. intros c Hc. rewrite (Hlast c Hc). lia.
    + split; [|done]. split; [lia|]. by split.
Qed.

Lemma throttle_run (t : Z) (events : list (Event Args)) s :
  consistent' t s → spaced' (calls s) →
  well_timed Args wait t events s →
  spaced' (calls (run' events s)).
Proof.
  revert t s. induction events as [|e events IH]; intros t s Hc Hs Hw; [done|].
  destruct Hw as [Hte Hw].
  destruct (throttle_step t e s Hc Hs Hte) as [Hc' Hs'].
  by apply (IH (time_of e) (step' e s)).
Qed.

(** X20 (throttle: calls are spaced).  When the clock does not run
    backwards and no timeout expires before it is due, any two consecutive
    calls that the throttled function makes to [func] are at least [wait]
    milliseconds apart, whatever the sequence of calls and expiries. *)
Theorem throttle_calls_are_spaced (events : list (Event Args)) :
  well_timed Args wait 0 events init →
  spaced' (calls (run' events init)).
Proof.
  apply throttle_run; [|done]. split; [done|]. split; [done|]. by left.
Qed.

End ThrottleFacts.

Lemma throttle_calls_are_spaced_witness :
  Throttle.spaced string 100
    (Throttle.calls
       (Throttle.run string 100
          [Throttle.Call 1000 "a"; Throttle.Call 1010 "b";
           Throttle.Call 1050 "c"; Throttle.Fire 1100 1;
           Throttle.Call 1150 "d"]
          Throttle.init)).
Proof.
  apply (throttle_calls_are_spaced string 100
           [Throttle.Call 1000 "a"; Throttle.Call 1010 "b";
            Throttle.Call 1050 "c"; Throttle.Fire 1100 1;
            Throttle.Call 1150 "d"]).
  simpl. repeat split; try (simpl; lia).
  intros due args Hin. vm_compute in Hin.
  apply list_elem_of_singleton in Hin. injection Hin as <- _. lia.
Defined.
